(** * bisemantic: text-pair equivalence, command line and data preparation

    A shallow embedding of [bisemantic/console.py], and a model of the parts
    of [bisemantic/data.py] and [bisemantic/main.py] that it calls and that
    the test-suite [test/test_bisemantic.py] exercises.

    Layout: the data frame operations the program calls, the program's own
    functions module by module, then the properties. *)

From stdpp Require Import gmap strings list fin_maps sorting pretty.
From Stdlib Require Import ZArith QArith Qround PrimFloat.

Set Warnings "-register-all".
Set Default Proof Using "Type".

Open Scope string_scope.
Open Scope list_scope.
Open Scope Z_scope.
Open Scope nat_scope.

(** ** Python exceptions and fallible computations *)

Inductive exn : Type :=
| ValueError (msg : string)
| KeyError (missing : list string)
| AttributeError (msg : string)
| FileNotFoundError (filename : string).

Inductive result (A : Type) : Type :=
| Return (a : A)
| Raise (e : exn).

Arguments Return {A} a.
Arguments Raise {A} e.

#[global] Instance result_ret : MRet result := λ A a, Return a.

#[global] Instance result_bind : MBind result := λ A B k r,
  match r with
  | Return a => k a
  | Raise e => Raise e
  end.

Definition returns {A : Type} (r : result A) : Prop := ∃ a, r = Return a.

Definition raises_ValueError {A : Type} (r : result A) : Prop :=
  ∃ msg, r = Raise (ValueError msg).

Definition raises_KeyError {A : Type} (r : result A) : Prop :=
  ∃ missing, r = Raise (KeyError missing).

(** Python slices [l[:n]] and [l[n:]]: a negative bound counts from the end. *)
Definition slice_to {A : Type} (n : Z) (l : list A) : list A :=
  if (0 <=? n)%Z then take (Z.to_nat n) l
  else take (length l - Z.to_nat (- n)) l.

Definition slice_from {A : Type} (n : Z) (l : list A) : list A :=
  if (0 <=? n)%Z then drop (Z.to_nat n) l
  else drop (length l - Z.to_nat (- n)) l.

(** ** The data frame operations the program relies on *)

Module Pandas.

(** A cell holds text; [None] is a null value (NaN). *)
Definition cell : Type := option string.

(** A frame is a header and its rows, each row aligned with the header.
    Column labels need not be distinct. *)
Record DataFrame : Type := {
  columns : list string;
  rows : list (list cell)
}.

(** [len(data)] *)
Definition len (data : DataFrame) : nat := length (rows data).

(** [name in data.columns] *)
Definition has_column (data : DataFrame) (name : string) : Prop :=
  name ∈ columns data.

Definition not_null (row : list cell) : Prop := Forall is_Some row.

(** [data.dropna()]: with the default arguments, a row is dropped as soon as
    one of its cells is null. *)
Definition dropna (data : DataFrame) : DataFrame :=
  {| columns := columns data; rows := filter not_null (rows data) |}.

(** [data.rename(columns=mapping)]: every label that is a key of the mapping
    is replaced, the others stay; the keys are Python objects, here a name or
    [None]. *)
Definition rename (data : DataFrame) (mapping : gmap (option string) string)
  : DataFrame :=
  {| columns := (λ c, default c (mapping !! Some c)) <$> columns data;
     rows := rows data |}.

(** Positions of the columns labelled [key], from left to right. *)
Fixpoint positions_from (i : nat) (key : string) (cols : list string) : list nat :=
  match cols with
  | [] => []
  | c :: cols' =>
      if decide (c = key) then i :: positions_from (S i) key cols'
      else positions_from (S i) key cols'
  end.

Definition positions (key : string) (cols : list string) : list nat :=
  positions_from 0 key cols.

(** [data[keys]] for a list of labels: the columns carrying each label in
    turn, every one of them when a label is repeated in the header;
    [KeyError] when a label names no column. *)
Definition getitem (data : DataFrame) (keys : list string) : result DataFrame :=
  match filter (λ k, k ∉ columns data) keys with
  | [] =>
      let indexer := keys ≫= (λ k, positions k (columns data)) in
      Return {| columns := (λ i, default "" (columns data !! i)) <$> indexer;
                rows := (λ row, (λ i, default None (row !! i)) <$> indexer)
                          <$> rows data |}
  | missing => Raise (KeyError missing)
  end.

(** [data.head(n)] is [data.iloc[:n]]; [n] is [None] when the option is not
    given, which keeps every row. *)
Definition head (data : DataFrame) (n : option Z) : DataFrame :=
  match n with
  | None => data
  | Some n => {| columns := columns data; rows := slice_to n (rows data) |}
  end.

(** The cell of [row] under the first column labelled [name]. *)
Definition cell_of (data : DataFrame) (name : string) (row : list cell) : cell :=
  match positions name (columns data) with
  | i :: _ => default None (row !! i)
  | [] => None
  end.

End Pandas.

Import Pandas.

(** ** Package constants *)

(** Modelled from the spec: [bisemantic/__init__.py], which defines the
    column names [text_1], [text_2] and [label] that [console.py] imports, is
    not among the sources. The spec names the columns text1, text2 and label,
    and the test-suite expects these headers. *)
Definition text_1 : string := "text1".
Definition text_2 : string := "text2".
Definition label : string := "label".

(** ** [bisemantic/data.py]: batches of embedded text pairs, partitions *)

Module Data.

(** Modelled from the spec: [bisemantic/data.py] is not among the sources.
    Consecutive runs of [n] elements of a list, the last one possibly
    shorter: how the data is cut into blocks and a group of rows into
    batches. *)
Fixpoint chunks_aux {A : Type} (fuel n : nat) (l : list A) : list (list A) :=
  match fuel, l with
  | 0, _ | _, [] => []
  | S fuel', _ => take n l :: chunks_aux fuel' n (drop n l)
  end.

Definition chunks {A : Type} (n : nat) (l : list A) : list (list A) :=
  chunks_aux (length l) n l.

Section Embedding.

(** The text parser is an outside service: text to one vector per token. The
    vector that fills a short sequence is [zero]. *)
Context {vector : Type}.
Variable zero : vector.
Variable parse : string → list vector.

(** Modelled from the spec: what the generator of [bisemantic/data.py]
    yields, as the test-suite unpacks it. One batch holds the embeddings of
    the first and of the second texts, one matrix of token vectors per row of
    the batch, and the labels of the rows when the data has a label column. *)
Record batch : Type := {
  embedding_1 : list (list vector);
  embedding_2 : list (list vector);
  labels : option (list cell)
}.

(** Modelled from the spec: the state of a [UniformLengthEmbeddingGenerator]
    object, from the arguments the test-suite passes to its constructor. *)
Record generator : Type := {
  data : DataFrame;
  maximum_tokens : nat;
  batch_size : nat;
  block_size : nat
}.

(** The token vectors of the text in column [name] of a row. *)
Definition tokens (data : DataFrame) (name : string) (row : list cell) : list vector :=
  parse (default "" (cell_of data name row)).

(** Length of the longest text of some rows of the data, in tokens. *)
Definition longest_in (data : DataFrame) (some_rows : list (list cell)) : nat :=
  foldr (λ row m, length (tokens data text_1 row) `max`
                  (length (tokens data text_2 row) `max` m)) 0 some_rows.

Definition longest (data : DataFrame) : nat := longest_in data (rows data).

(** Modelled from the spec: the class [UniformLengthEmbeddingGenerator] of
    [bisemantic/data.py] is not among the sources. The constructor is the one
    the test-suite calls: data, an optional [maximum_tokens], a batch size
    and a block size. [maximum_tokens] is the most tokens embedded per text
    (the help of [--maximum-tokens] in [console.py]); without it no text of
    the data is cut. *)
Definition UniformLengthEmbeddingGenerator (data : DataFrame)
    (maximum_tokens : option nat) (batch_size block_size : nat) : generator :=
  {| data := data;
     maximum_tokens := default (longest data) maximum_tokens;
     batch_size := batch_size;
     block_size := block_size |}.

(** Modelled from the spec: padding, missing with [bisemantic/data.py]. A
    token sequence is brought to length [n]: cut when longer, filled with the
    zero vector when shorter. *)
Definition pad (n : nat) (sequence : list vector) : list vector :=
  take n sequence ++ replicate (n - length sequence) zero.

(** Modelled from the spec: the length of a pair of texts, by which the
    generator groups the rows ("variable-length paired sequences"): that of
    the longer of its two token sequences, at most [maximum_tokens]. *)
Definition row_length (g : generator) (row : list cell) : nat :=
  (length (tokens (data g) text_1 row) `max` length (tokens (data g) text_2 row))
    `min` maximum_tokens g.

(** Modelled from the spec: the lengths met in a block of rows, in
    increasing order, each once ("sort-or-bucket by length"). *)
Definition lengths (g : generator) (block : list (list cell)) : list nat :=
  merge_sort (≤) (remove_dups (row_length g <$> block)).

(** Modelled from the spec: the buckets of a block, one per length, each
    with the rows of that length in the order of the data ("groups
    same-length sequences"). *)
Definition buckets (g : generator) (block : list (list cell))
  : list (list (list cell)) :=
  (λ n, filter (λ row, row_length g row = n) block) <$> lengths g block.

(** Modelled from the spec: the rows of each batch of one pass over the
    data, missing with [bisemantic/data.py]. The data is read in blocks of
    [block_size] rows, the rows of a block are grouped by length and each
    group is cut into batches of [batch_size] rows. *)
Definition batch_rows (g : generator) : list (list (list cell)) :=
  chunks (block_size g) (rows (data g))
    ≫= (λ block, buckets g block ≫= chunks (batch_size g)).

(** Modelled from the spec: the length the sequences of a batch are brought
    to ("pad within bucket"): that of the longest text among the rows of the
    batch, at most [maximum_tokens]. *)
Definition batch_length (g : generator) (batch_rows : list (list cell)) : nat :=
  longest_in (data g) batch_rows `min` maximum_tokens g.

(** Modelled from the spec: embedding of the rows of one batch, missing with
    [bisemantic/data.py]: the two arrays of padded token sequences, as the
    test-suite unpacks them, and the labels when the data has them. *)
Definition embed_batch (g : generator) (batch_rows : list (list cell)) : batch :=
  let n := batch_length g batch_rows in
  {| embedding_1 := (λ row, pad n (tokens (data g) text_1 row)) <$> batch_rows;
     embedding_2 := (λ row, pad n (tokens (data g) text_2 row)) <$> batch_rows;
     labels := if decide (label ∈ columns (data g))
               then Some (cell_of (data g) label <$> batch_rows)
               else None |}.

(** Modelled from the spec: the batches of one epoch, missing with
    [bisemantic/data.py]. *)
Definition epoch (g : generator) : list batch := embed_batch g <$> batch_rows g.

(** Modelled from the spec: the number of batches in an epoch, which
    [UniformLengthEmbeddingGenerator.embed] returns next to the generator in
    the test-suite. *)
Definition batches_per_epoch (g : generator) : nat := length (epoch g).

(** Modelled from the spec: [g()], the generator that cycles over the epochs
    for ever, missing with [bisemantic/data.py]. Its state is what is left of
    the current pass; a pass over no batch at all never yields. *)
Definition next (g : generator) (pending : list batch) : option (batch * list batch) :=
  match pending with
  | b :: pending' => Some (b, pending')
  | [] =>
      match epoch g with
      | b :: pending' => Some (b, pending')
      | [] => None
      end
  end.

(** [islice(g(), n)], as the test-suite takes batches, continued from a
    given state of the generator. *)
Fixpoint islice_from (g : generator) (pending : list batch) (n : nat) : list batch :=
  match n with
  | 0 => []
  | S n' =>
      match next g pending with
      | Some (b, pending') => b :: islice_from g pending' n'
      | None => []
      end
  end.

Definition islice (g : generator) (n : nat) : list batch := islice_from g [] n.

End Embedding.

Arguments batch : clear implicits.
Arguments generator : clear implicits.

(** *** Cross-validation partitions *)

(** [int(x)]: truncation toward zero. The fraction is a Python float, taken
    here as the rational it stands for. *)
Definition int (x : Q) : Z := (Qnum x ÷ Zpos (Qden x))%Z.

Section CrossValidation.

(** The pseudo-random generator: its states, and a shuffle that consumes
    randomness. *)
Context {rng : Type}.
Variable shuffle : rng → list (list cell) → list (list cell) * rng.

(** Modelled from the spec: the loop of [cross_validation_partitions],
    missing with [bisemantic/data.py]: [k] times, shuffle the rows and cut
    them at [n] into a training and a validation part. *)
Fixpoint partitions_from (g : rng) (data : DataFrame) (n : Z) (k : nat)
  : list (DataFrame * DataFrame) :=
  match k with
  | 0 => []
  | S k' =>
      let '(shuffled, g') := shuffle g (rows data) in
      let data := {| columns := columns data; rows := shuffled |} in
      ({| columns := columns data; rows := slice_to n (rows data) |},
       {| columns := columns data; rows := slice_from n (rows data) |})
        :: partitions_from g' data n k'
  end.

(** Modelled from the spec: [cross_validation_partitions] of
    [bisemantic/data.py] is not among the sources. It returns [k] pairs
    (train, validate), each a shuffle of the data cut at
    [int(fraction * len(data))], as the test-suite expects (3 pairs of 80
    and 20 rows from 100 rows for 0.8). [g] is the state of the random
    generator the shuffles start from; where the routine takes it from is
    not modelled. *)
Definition cross_validation_partitions (g : rng) (data : DataFrame)
    (fraction : Q) (k : Z) : list (DataFrame * DataFrame) :=
  partitions_from g data (int (fraction * inject_Z (Z.of_nat (len data)))) (Z.to_nat k).

End CrossValidation.

End Data.

(** ** [bisemantic/main.py]: the model *)

Module Main.

Import Data.

Section Model.

Context {vector : Type}.
Variable zero : vector.
Variable parse : string → list vector.

(** Modelled from the spec: the class [TextualEquivalenceModel] of
    [bisemantic/main.py] is not among the sources. A trained model is the
    sequence length it was built for and the decision of the network on an
    embedded pair, whether the two texts are equivalent. Training and
    inference belong to the neural-network library. *)
Record TextualEquivalenceModel : Type := {
  maximum_tokens : nat;
  equivalent : list vector → list vector → bool
}.

(** Modelled from the spec: the labels of one batch, 1 for an equivalent
    pair and 0 otherwise. *)
Definition predict_batch (model : TextualEquivalenceModel) (b : batch vector) : list Z :=
  zip_with (λ e1 e2, if equivalent model e1 e2 then 1%Z else 0%Z)
    (embedding_1 b) (embedding_2 b).

(** Modelled from the spec: [TextualEquivalenceModel.predict] of
    [bisemantic/main.py] is not among the sources. The test data goes through
    the batch generator for one epoch and the network labels each pair 1
    (equivalent) or 0. The batch and block sizes are those of the generator,
    positive constants in the program. *)
Definition predict (model : TextualEquivalenceModel) (test : DataFrame)
    (batch_size block_size : nat) : list Z :=
  let g := UniformLengthEmbeddingGenerator parse test (Some (maximum_tokens model))
             batch_size block_size in
  islice zero parse g (batches_per_epoch zero parse g) ≫= predict_batch model.

End Model.

Arguments TextualEquivalenceModel : clear implicits.

End Main.

(** ** [bisemantic/console.py]: loading and preparing data *)

Module Console.

(** The parsed command-line options that select columns. *)
Record Namespace : Type := {
  text_1_name : option string;
  text_2_name : option string;
  label_name : option string
}.

Section DataFile.

(** [pd.read_csv]: the frame stored in a CSV file. *)
Variable read_csv : string → DataFrame.

(** [data_file(filename)]: the frame without its rows that hold a null,
    together with the number of dropped lines reported to the log, if any. *)
Definition data_file (filename : string) : DataFrame * option nat :=
  let data := read_csv filename in
  let m := len data in
  let data := dropna data in
  let n := len data in
  (data, if decide (m ≠ n) then Some (m - n) else None).

End DataFile.

(** ["Missing column %s" % name] *)
Definition missing_column (name : string) : string := "Missing column " +:+ name.

(** The loop of [fix_columns] over the supplied names: the first name that
    is given and is not a column raises [ValueError]. *)
Fixpoint check_names (data : DataFrame) (names : list (option string))
  : result unit :=
  match names with
  | [] => Return ()
  | None :: names' => check_names data names'
  | Some name :: names' =>
      if decide (name ∈ columns data) then check_names data names'
      else Raise (ValueError (missing_column name))
  end.

(** The dictionary literal [{args.text_1_name: text_1, args.text_2_name:
    text_2, args.label_name: label}]: a later entry replaces an earlier one
    with the same key. *)
Definition renames (args : Namespace) : gmap (option string) string :=
  <[label_name args := label]>
    (<[text_2_name args := text_2]>
       (<[text_1_name args := text_1]> ∅)).

(** The header after the renaming step of [fix_columns]. *)
Definition renamed_columns (data : DataFrame) (args : Namespace) : list string :=
  columns (rename data (renames args)).

(** The names the loop of [fix_columns] goes through. *)
Definition supplied (args : Namespace) : list (option string) :=
  [text_1_name args; text_2_name args; label_name args].

Definition fix_columns (data : DataFrame) (args : Namespace) : result DataFrame :=
  check_names data (supplied args);;
  let data := rename data (renames args) in
  let columns :=
    if decide (label ∈ Pandas.columns data) then [text_1; text_2; label]
    else [text_1; text_2] in
  getitem data columns.

(** The value of the local variable [columns] of [fix_columns]: the labels
    it selects. *)
Definition wanted (data : DataFrame) (args : Namespace) : list string :=
  if decide (label ∈ renamed_columns data args) then [text_1; text_2; label]
  else [text_1; text_2].

(** *** The command line *)

(** The four functions a subcommand is bound to with [set_defaults(func=...)]:
    [train], [continue_training], [predict] and
    [create_cross_validation_partitions]. *)
Inductive Operation : Type :=
| Train
| ContinueTraining
| Predict
| CreateCrossValidationPartitions.

(** What [args.func] does when [main] calls it. *)
Inductive func : Type :=
| print_usage
| run (op : Operation).

(** The parser built by [create_argument_parser], as far as dispatch goes:
    the default of [func] and the subparsers in the order they are added. *)
Record ArgumentParser : Type := {
  default_func : func;
  subparsers : list (string * Operation)
}.

Definition create_argument_parser : ArgumentParser :=
  {| default_func := print_usage;
     subparsers := [("train", Train);
                    ("continue", ContinueTraining);
                    ("predict", Predict);
                    ("cross-validation", CreateCrossValidationPartitions)] |}.

(** The options of the top-level parser: [--version] (action [version]),
    [-h]/[--help] (added by argparse) and [--log LEVEL]. *)
Inductive flag : Type :=
| Version
| Help
| Log (level : string).

(** A command line as argparse recognises it: the top-level options in the
    order given, then possibly a subcommand name with its own arguments. *)
Record command_line : Type := {
  flags : list flag;
  subcommand : option (string * list string)
}.

(** What an invocation does, in order: the calls of the logger, what is
    printed on standard output, an operation that is run. [Rejected] is the
    subparser ending the program instead of handing the arguments over. *)
Inductive event : Type :=
| ConfiguredLogger (level : string)
| LoggedInfo (message : string)
| PrintedVersion
| PrintedHelp
| PrintedUsage
| Rejected
| Ran (op : Operation) (arguments : list string).

(** Outcome of [parse_args]: argparse ends the program itself (version,
    help or an error), or hands back the namespace: the value of [--log] and
    the function to call. *)
Inductive parsed : Type :=
| Exit (output : event)
| Namespace_func (log : string) (f : func) (arguments : list string).

(** The value of [args.log]: the last [--log] given, ["WARNING"] without. *)
Definition log_option (fl : list flag) : string :=
  foldl (λ level f, match f with Log level' => level' | _ => level end) "WARNING" fl.

Section CommandLine.

(** Whether the subparser of an operation accepts the arguments that follow
    the subcommand name (required positionals, option values, types). *)
Variable accepts : Operation → list string → bool.

(** [str.upper] *)
Variable upper : string → string.

(** [configure_logger], imported from the package: whether the call
    returns, rather than raising, for the level it is given. *)
Variable configure_logger : string → bool.

(** Whether an operation returns, rather than raising, when it is called
    with its arguments. *)
Variable completes : Operation → list string → bool.

(** Options are handled as they are met: [--version] and [--help] print and
    leave at once. *)
Fixpoint parse_flags (fl : list flag) : option event :=
  match fl with
  | [] => None
  | Version :: _ => Some PrintedVersion
  | Help :: _ => Some PrintedHelp
  | Log _ :: fl' => parse_flags fl'
  end.

Definition parse_args (parser : ArgumentParser) (argv : command_line) : parsed :=
  match parse_flags (flags argv) with
  | Some output => Exit output
  | None =>
      let log := log_option (flags argv) in
      match subcommand argv with
      | None => Namespace_func log (default_func parser) []
      | Some (name, arguments) =>
          match list_find (λ sp, sp.1 = name) (subparsers parser) with
          | None => Exit Rejected
          | Some (_, (_, op)) =>
              if accepts op arguments then Namespace_func log (run op) arguments
              else Exit Rejected
          end
      end
  end.

(** [args.func(args)], and [logger.info("Done")] when it returns. *)
Definition call (f : func) (arguments : list string) : list event :=
  match f with
  | print_usage => [PrintedUsage; LoggedInfo "Done"]
  | run op =>
      Ran op arguments :: (if completes op arguments then [LoggedInfo "Done"] else [])
  end.

(** [main]: parse, configure the logger, then call [args.func(args)]
    between two messages to the log. *)
Definition main (argv : command_line) : list event :=
  match parse_args create_argument_parser argv with
  | Exit output => [output]
  | Namespace_func log f arguments =>
      ConfiguredLogger (upper log)
        :: (if configure_logger (upper log)
            then LoggedInfo "Start" :: call f arguments
            else [])
  end.

End CommandLine.

(** *** Training history *)

(** Python values that JSON can carry: what [json.load] returns and what
    [add_run] records. A dictionary is keyed by strings; two dictionaries are
    equal when they hold the same entries, whatever the insertion order. *)
Inductive pyval : Type :=
| PNone
| PBool (b : bool)
| PInt (z : Z)
| PFloat (f : float)
| PStr (s : string)
| PList (l : list pyval)
| PDict (m : gmap string pyval).

(** A measure for induction on values: lists and dictionaries are larger
    than what they hold. *)
Fixpoint pysize (v : pyval) : nat :=
  match v with
  | PList l => S (foldr (λ v acc, pysize v + acc) 0 l)
  | PDict m => S (map_fold (λ _ v acc, pysize v + acc) 0 m)
  | _ => 0
  end.

(** A JSON document: an object lists its members in the order written. *)
Inductive json : Type :=
| JNull
| JBool (b : bool)
| JInt (z : Z)
| JFloat (f : float)
| JStr (s : string)
| JArray (l : list json)
| JObject (members : list (string * json)).

Definition key_le (a b : string * json) : Prop := String.leb a.1 b.1 = true.

#[global] Instance key_le_dec a b : Decision (key_le a b) := bool_eq_dec _ _.

(** [json.dump(v, f, sort_keys=True, ...)]: the members of an object are
    written by increasing key. Indentation and separators only lay the text
    out. *)
Fixpoint dump (v : pyval) : json :=
  match v with
  | PNone => JNull
  | PBool b => JBool b
  | PInt z => JInt z
  | PFloat f => JFloat f
  | PStr s => JStr s
  | PList l => JArray (dump <$> l)
  | PDict m => JObject (merge_sort key_le (map_to_list (dump <$> m)))
  end.

(** [json.load(f)]: when a key is repeated in an object the last member
    wins. *)
Fixpoint load_json (j : json) : pyval :=
  match j with
  | JNull => PNone
  | JBool b => PBool b
  | JInt z => PInt z
  | JFloat f => PFloat f
  | JStr s => PStr s
  | JArray l => PList (load_json <$> l)
  | JObject members =>
      PDict (foldl (λ m kv, <[kv.1 := kv.2]> m) ∅
               (prod_map id load_json <$> members))
  end.

(** Python truth value, as used by [runs or []]. *)
Definition truthy (v : pyval) : bool :=
  match v with
  | PNone => false
  | PBool b => b
  | PInt z => negb (z =? 0)%Z
  | PFloat f => negb (PrimFloat.eqb f 0%float)
  | PStr s => negb (bool_decide (s = ""))
  | PList l => match l with [] => false | _ => true end
  | PDict m => match map_to_list m with [] => false | _ => true end
  end.

(** Files that hold JSON documents, by name. *)
Abbreviation files := (gmap string json).

Module TrainingHistory.

Record t : Type := { runs : pyval }.

(** [__init__(self, runs=None)]: [self.runs = runs or []] *)
Definition init (runs : option pyval) : t :=
  match runs with
  | Some v => if truthy v then {| runs := v |} else {| runs := PList [] |}
  | None => {| runs := PList [] |}
  end.

(** [load(cls, filename)] *)
Definition load (fs : files) (filename : string) : result t :=
  match fs !! filename with
  | Some doc => Return (init (Some (load_json doc)))
  | None => Raise (FileNotFoundError filename)
  end.

(** The dictionary [add_run] records; [now] is the formatted current date
    and [history] the metrics of the run ([history.history]). *)
Definition run_record (training_time : string) (samples : Z) (history : pyval)
    (now : string) : pyval :=
  PDict (<["run-date" := PStr now]>
           (<["history" := history]>
              (<["samples" := PInt samples]>
                 (<["training-time" := PStr training_time]> ∅)))).

(** [add_run]: [self.runs.append(...)], which only a list offers. *)
Definition add_run (h : t) (training_time : string) (samples : Z)
    (history : pyval) (now : string) : result t :=
  match runs h with
  | PList l =>
      Return {| runs := PList (l ++ [run_record training_time samples history now]) |}
  | _ => Raise (AttributeError "append")
  end.

(** [save(self, filename)] *)
Definition save (h : t) (fs : files) (filename : string) : files :=
  <[filename := dump (runs h)]> fs.

(** [len(self.runs)], as [__repr__] prints it, where [runs] is a list,
    as [__init__] and [add_run] leave it unless the history file holds
    something else; the length of another value is not modelled (0). *)
Definition run_count (h : t) : nat :=
  match runs h with
  | PList l => length l
  | _ => 0
  end.

End TrainingHistory.

(** [os.path.join(directory_name, name)] on POSIX: an absolute [name]
    replaces what comes before it; otherwise it is appended, after a slash
    unless the directory name is empty or already ends with one. *)
Definition path_join (directory_name name : string) : string :=
  if String.prefix "/" name then name
  else if decide (directory_name = "") then name
  else if String.eqb (String.substring (String.length directory_name - 1) 1 directory_name) "/"
       then directory_name +:+ name
       else directory_name +:+ "/" +:+ name.

Arguments path_join : simpl never.

(** [update_model_directory]: [os.path.isfile] is whether the file exists. *)
Definition update_model_directory (fs : files) (directory_name : string)
    (training_time : string) (samples : Z) (history : pyval) (now : string)
  : result files :=
  let training_history_filename := path_join directory_name "training-history.json" in
  training_history ←
    (if decide (is_Some (fs !! training_history_filename))
     then TrainingHistory.load fs training_history_filename
     else Return (TrainingHistory.init None));
  training_history ←
    TrainingHistory.add_run training_history training_time samples history now;
  Return (TrainingHistory.save training_history fs training_history_filename).

(** *** The operations behind [predict] and [cross-validation] *)

Section Operations.

Context {vector : Type}.
Variable zero : vector.
Variable parse : string → list vector.
Context {rng : Type}.
Variable shuffle : rng → list (list cell) → list (list cell) * rng.

(** [predict(args)]: the labels that are printed as the column
    [predicted]. [test] is [args.test], [n] is [args.n]; the generator's
    batch and block sizes are those of the model's [predict]. *)
Definition predict (model : Main.TextualEquivalenceModel vector)
    (test : DataFrame) (n : option Z) (args : Namespace)
    (batch_size block_size : nat) : result (list Z) :=
  test ← fix_columns (head test n) args;
  Return (Main.predict zero parse model test batch_size block_size).

(** The two file names of partition [i] (counted from 0):
    [os.path.join(output_directory, "%s.%d.%s.csv" % (prefix, i + 1, name))]. *)
Definition partition_name (output_directory prefix : string) (i : nat)
    (name : string) : string :=
  path_join output_directory (prefix +:+ "." +:+ pretty (i + 1) +:+ "." +:+ name +:+ ".csv").

(** [create_cross_validation_partitions(args)]: the files written, in
    order, each with the frame stored in it. [random_state] is the state
    of the random generator the partitioning routine draws from. *)
Definition create_cross_validation_partitions (random_state : rng)
    (data : DataFrame) (n : option Z) (args : Namespace) (fraction : Q) (k : Z)
    (prefix output_directory : string) : result (list (string * DataFrame)) :=
  data ← fix_columns (head data n) args;
  Return (imap (λ i '(train_partition, validate_partition),
                  [(partition_name output_directory prefix i "train", train_partition);
                   (partition_name output_directory prefix i "validate", validate_partition)])
            (Data.cross_validation_partitions shuffle random_state data fraction k)
          ≫= id).

End Operations.

(** *** Training sessions: [train_or_continue] *)

Module Training.

(** How a session can end early: an exception of the data preparation or of
    the history file, or one of the two the rest of the function can meet. *)
Inductive failure : Type :=
| Python (e : exn)
| TypeError (what : string)
| IndexError.

Inductive outcome (A : Type) : Type :=
| Done (a : A)
| Failed (f : failure).

Arguments Done {A} a.
Arguments Failed {A} f.

#[global] Instance outcome_ret : MRet outcome := λ A a, Done a.

#[global] Instance outcome_bind : MBind outcome := λ A B k o,
  match o with
  | Done a => k a
  | Failed f => Failed f
  end.

(** The parsed arguments [train_or_continue] reads. [model_directory_name] is
    optional for [train] and required for [continue]. [gpu_fraction] only
    configures the session of the backend. *)
Record t : Type := {
  training : DataFrame;
  n : option Z;
  names : Namespace;
  validation_set : option DataFrame;
  validation_fraction : option Q;
  gpu_fraction : option Q;
  model_directory_name : option string
}.

(** The lines printed at the end of a session, with the values shown. *)
Inductive line : Type :=
| TrainingTime (training_time : string)
| TrainingScores (accuracy loss : pyval)
| ValidationScores (accuracy loss : pyval).

(** [history[name]] *)
Definition item (history : pyval) (name : string) : outcome pyval :=
  match history with
  | PDict m =>
      match m !! name with
      | Some v => Done v
      | None => Failed (Python (KeyError [name]))
      end
  | PList _ | PStr _ => Failed (TypeError "indices must be integers")
  | _ => Failed (TypeError "not subscriptable")
  end.

(** [values[-1]] *)
Definition last_item (values : pyval) : outcome pyval :=
  match values with
  | PList l =>
      match last l with
      | Some v => Done v
      | None => Failed IndexError
      end
  | PStr s =>
      if decide (s = "") then Failed IndexError
      else Done (PStr (String.substring (String.length s - 1) 1 s))
  | PDict _ => Failed (Python (KeyError ["-1"]))
  | _ => Failed (TypeError "not subscriptable")
  end.

(** What ["%0.4f"] accepts. *)
Definition real_number (v : pyval) : bool :=
  match v with
  | PBool _ | PInt _ | PFloat _ => true
  | _ => false
  end.

(** The two values of a line of scores:
    ["...%0.4f...%0.4f" % (history[accuracy][-1], history[loss][-1])]. *)
Definition scores (history : pyval) (accuracy loss : string) : outcome (pyval * pyval) :=
  a ← item history accuracy ≫= last_item;
  l ← item history loss ≫= last_item;
  if real_number a && real_number l then Done (a, l)
  else Failed (TypeError "must be real number").

(** A session leaves files, printed lines and possibly an exception. *)
Record session : Type := {
  files_after : files;
  printed : list line;
  raised : option failure
}.

Section TrainOrContinue.

(** The shuffle of the partitioning routine and the state of the random
    generator it draws from. *)
Context {rng : Type}.
Variable shuffle : rng → list (list cell) → list (list cell) * rng.
Variable random_state : rng.

(** The training operation [train] or [continue_training] passes in: given
    the training data and the validation data, if any, the metrics of the run
    ([history.history]). The trained model it also returns is not used. *)
Variable training_operation : DataFrame → option DataFrame → pyval.

(** The training and validation data of the session. *)
Definition partition (training : DataFrame) (args : t)
  : outcome (DataFrame * option DataFrame) :=
  match validation_fraction args with
  | Some fraction =>
      match Data.cross_validation_partitions shuffle random_state training
              (1 - fraction)%Q 1 with
      | (training, validation) :: _ => Done (training, Some validation)
      | [] => Failed IndexError
      end
  | None => Done (training, validation_set args)
  end.

(** The prints that follow the update of the model directory. *)
Definition report (training_time : string) (history : pyval)
    (validation : option DataFrame) : list line * option failure :=
  match scores history "acc" "loss" with
  | Failed f => ([TrainingTime training_time], Some f)
  | Done (a, l) =>
      match validation with
      | None => ([TrainingTime training_time; TrainingScores a l], None)
      | Some _ =>
          match scores history "val_acc" "val_loss" with
          | Failed f => ([TrainingTime training_time; TrainingScores a l], Some f)
          | Done (va, vl) =>
              ([TrainingTime training_time; TrainingScores a l; ValidationScores va vl],
               None)
          end
      end
  end.

(** [train_or_continue(args, training_operation)]; [training_time] is the
    measured duration and [now] the date of the record. *)
Definition train_or_continue (fs : files) (args : t) (training_time now : string)
  : session :=
  match fix_columns (head (training args) (n args)) (names args) with
  | Raise e => {| files_after := fs; printed := []; raised := Some (Python e) |}
  | Return training =>
      match partition training args with
      | Failed f => {| files_after := fs; printed := []; raised := Some f |}
      | Done (training, validation) =>
          let history := training_operation training validation in
          match model_directory_name args with
          | None =>
              {| files_after := fs; printed := [];
                 raised := Some (TypeError "expected str, not NoneType") |}
          | Some directory_name =>
              match update_model_directory fs directory_name training_time
                      (Z.of_nat (len training)) history now with
              | Raise e => {| files_after := fs; printed := []; raised := Some (Python e) |}
              | Return fs' =>
                  let '(lines, failed) := report training_time history validation in
                  {| files_after := fs'; printed := lines; raised := failed |}
              end
          end
      end
  end.

End TrainOrContinue.

End Training.

End Console.

Import Console.

(** ** Vocabulary of the properties *)

(** No column name supplied. *)
Definition no_names : Namespace :=
  {| text_1_name := None; text_2_name := None; label_name := None |}.

(** The dot that separates the parts of a file name, and texts without it. *)
Definition dot : Ascii.ascii := Ascii.ascii_of_nat 46.

Fixpoint dotless (s : string) : Prop :=
  match s with
  | EmptyString => True
  | String c s' => c ≠ dot ∧ dotless s'
  end.

(** The JSON documents that Python takes for false: [null], [false], zero,
    the empty string, the empty array and the empty object. *)
Definition empty_document (doc : json) : bool :=
  match doc with
  | JNull => true
  | JBool b => negb b
  | JInt z => (z =? 0)%Z
  | JFloat f => PrimFloat.eqb f 0%float
  | JStr s => bool_decide (s = "")
  | JArray l => match l with [] => true | _ => false end
  | JObject members => match members with [] => true | _ => false end
  end.

(** A sequence of training runs recorded one after the other in a model
    directory: duration, number of samples, metrics and date of each. *)
Fixpoint record_runs (fs : files) (directory_name : string)
    (sessions : list (string * Z * pyval * string)) : result files :=
  match sessions with
  | [] => Return fs
  | (training_time, samples, history, now) :: sessions' =>
      fs' ← update_model_directory fs directory_name training_time samples history now;
      record_runs fs' directory_name sessions'
  end.

(** What [json.dump] with [sort_keys=True] writes: in every object, at any
    depth, the keys are in increasing order and no key comes twice. *)
Inductive sorted_keys : json → Prop :=
| sorted_null : sorted_keys JNull
| sorted_bool b : sorted_keys (JBool b)
| sorted_int z : sorted_keys (JInt z)
| sorted_float f : sorted_keys (JFloat f)
| sorted_str s : sorted_keys (JStr s)
| sorted_array l : Forall sorted_keys l → sorted_keys (JArray l)
| sorted_object members :
    Sorted (λ a b, String.leb a.1 b.1 = true) members →
    NoDup members.*1 →
    Forall (λ kv, sorted_keys kv.2) members →
    sorted_keys (JObject members).

(** * Properties *)

(** Membership in a list written out: one case per entry. *)
Ltac elem_of_entries H :=
  repeat (apply elem_of_cons in H as [H|H]; [by simplify_eq|]);
  try (by apply elem_of_nil in H).

(** ** Loading data: [data_file] *)

Section DataFileFacts.

Variable read_csv : string → DataFrame.

Lemma not_null_no_None (row : list cell) :
  not_null row ↔ ∀ c, c ∈ row → c ≠ None.
Proof.
  unfold not_null. rewrite Forall_forall. split; intros H c Hc.
  - destruct (H c Hc) as [s ->]. discriminate.
  - destruct c as [s|]; [by exists s | by destruct (H None Hc)].
Qed.

Lemma data_file_rows (filename : string) :
  rows (data_file read_csv filename).1 = filter not_null (rows (read_csv filename)).
Proof. reflexivity. Qed.

(** The number written to the log is the number of rows that went away. *)
Lemma data_file_log (filename : string) :
  let m := len (read_csv filename) in
  let n := len (data_file read_csv filename).1 in
  n ≤ m ∧ (data_file read_csv filename).2 = if decide (m = n) then None else Some (m - n).
Proof.
  cbn. split.
  - apply length_filter.
  - unfold len, dropna; cbn. repeat case_decide; done.
Qed.

(** C8. For every CSV file, the frame [data_file] returns has no null value:
    each row of the file with a null in some column is dropped, and the other
    rows are all kept, in the order of the file; the header is untouched. *)
Theorem data_file_drops_rows_with_null (filename : string) :
  let loaded := read_csv filename in
  let data := (data_file read_csv filename).1 in
  (∀ row, row ∈ rows data → ∀ c, c ∈ row → c ≠ None) ∧
  (∀ row, row ∈ rows loaded → (∃ c, c ∈ row ∧ c = None) → row ∉ rows data) ∧
  (∀ row, row ∈ rows loaded → (∀ c, c ∈ row → c ≠ None) → row ∈ rows data) ∧
  rows data = filter not_null (rows loaded) ∧
  rows data `sublist_of` rows loaded ∧
  columns data = columns loaded.
Proof.
  cbn. repeat split.
  - intros row Hrow. apply not_null_no_None.
    by apply list_elem_of_filter in Hrow as [? _].
  - intros row _ (c & Hc & ->) Hrow.
    apply list_elem_of_filter in Hrow as [Hnn _].
    by apply (proj1 (not_null_no_None row) Hnn None).
  - intros row Hrow Hnn. apply list_elem_of_filter. split; [|done].
    by apply not_null_no_None.
  - apply sublist_filter.
Qed.

End DataFileFacts.

(** ** Column fix-up: [fix_columns] *)

Section FixColumnsFacts.

Implicit Types (data : DataFrame) (args : Namespace).

Lemma check_names_Return data (names : list (option string)) :
  (∀ name, Some name ∈ names → name ∈ columns data) →
  check_names data names = Return ().
Proof.
  induction names as [|[name|] names IH]; intros Hall; cbn; [done| |].
  - case_decide as Hin.
    + apply IH. intros n Hn. apply Hall. by right.
    + destruct Hin. apply Hall. by left.
  - apply IH. intros n Hn. apply Hall. by right.
Qed.

Lemma check_names_Return_inv data (names : list (option string)) :
  check_names data names = Return () →
  ∀ name, Some name ∈ names → name ∈ columns data.
Proof.
  induction names as [|[n|] names IH]; cbn; intros Hck name Hname.
  - by apply elem_of_nil in Hname.
  - case_decide as Hn; [|discriminate].
    apply elem_of_cons in Hname as [[= ->]|Hname]; [done | by apply IH].
  - apply elem_of_cons in Hname as [[=]|Hname]. by apply IH.
Qed.

Lemma check_names_Raise_inv data (names : list (option string)) e :
  check_names data names = Raise e →
  ∃ name, Some name ∈ names ∧ (name ∉ columns data) ∧
    e = ValueError (missing_column name).
Proof.
  induction names as [|[n|] names IH]; cbn; intros Hck; [discriminate| |].
  - case_decide as Hn.
    + destruct (IH Hck) as (name & ? & ? & ?). exists name. split_and!; [by right|done..].
    + injection Hck as <-. exists n. split_and!; [by left|done..].
  - destruct (IH Hck) as (name & ? & ? & ?). exists name. split_and!; [by right|done..].
Qed.

(** The check either passes or raises [ValueError], nothing else. *)
Lemma check_names_cases data (names : list (option string)) :
  check_names data names = Return () ∨
  ∃ msg, check_names data names = Raise (ValueError msg).
Proof.
  induction names as [|[n|] names IH]; cbn; [by left| |done].
  case_decide; [done|]. right. by eexists.
Qed.

Lemma filter_nil_iff {A : Type} (P : A → Prop) `{!∀ x, Decision (P x)} (l : list A) :
  filter P l = [] ↔ ∀ x, x ∈ l → ¬ P x.
Proof.
  split.
  - intros Hf x Hx HP. by apply (filter_nil_not_elem_of P l x).
  - induction l as [|x l IH]; intros Hall; [done|].
    rewrite filter_cons_False; [|apply Hall; by left].
    apply IH. intros y Hy. apply Hall. by right.
Qed.

(** [data[keys]] returns when every key is a column and raises [KeyError]
    otherwise. *)
Lemma getitem_cases data (keys : list string) :
  ((∀ k, k ∈ keys → k ∈ columns data) ∧
   ∃ selected, getitem data keys = Return selected ∧
     columns selected =
       (λ i, default "" (columns data !! i)) <$> (keys ≫= (λ k, positions k (columns data)))) ∨
  ((∃ k, k ∈ keys ∧ k ∉ columns data) ∧
   ∃ missing, getitem data keys = Raise (KeyError missing)).
Proof.
  unfold getitem.
  destruct (filter (λ k, k ∉ columns data) keys) as [|k missing] eqn:Hf.
  - left. split; [|by eexists].
    intros k Hk. destruct (decide (k ∈ columns data)) as [|Hnot]; [done|].
    by destruct (proj1 (filter_nil_iff _ _) Hf k Hk).
  - right. split; [|by eexists].
    assert (k ∈ filter (λ k, k ∉ columns data) keys) as Hin by (rewrite Hf; by left).
    apply list_elem_of_filter in Hin as [? ?]. by exists k.
Qed.

Lemma positions_from_fresh (cols : list string) key i :
  key ∉ cols → positions_from i key cols = [].
Proof.
  revert i. induction cols as [|c cols IH]; intros i Hnot; cbn; [done|].
  case_decide as Hc.
  - destruct Hnot. rewrite Hc. by left.
  - apply IH. intros Hin. apply Hnot. by right.
Qed.

(** In a header without repetition a label has exactly one position. *)
Lemma positions_from_NoDup (cols : list string) key i :
  NoDup cols → key ∈ cols →
  ∃ d, positions_from i key cols = [i + d] ∧ cols !! d = Some key.
Proof.
  revert i. induction cols as [|c cols IH]; intros i Hnd Hin; cbn.
  - by apply elem_of_nil in Hin.
  - apply NoDup_cons in Hnd as [Hc Hnd]. case_decide as Heq.
    + subst c. rewrite positions_from_fresh; [|done].
      exists 0. split; [f_equal; lia | done].
    + apply elem_of_cons in Hin as [->|Hin]; [done|].
      destruct (IH (S i) Hnd Hin) as (d & -> & Hd).
      exists (S d). split; [f_equal; lia | done].
Qed.

Lemma getitem_columns_NoDup data (keys : list string) :
  NoDup (columns data) → (∀ k, k ∈ keys → k ∈ columns data) →
  (λ i, default "" (columns data !! i)) <$> (keys ≫= (λ k, positions k (columns data))) = keys.
Proof.
  intros Hnd. induction keys as [|k keys IH]; intros Hall; [done|].
  rewrite bind_cons, fmap_app, IH; [|intros k' ?; apply Hall; by right].
  destruct (positions_from_NoDup (columns data) k 0 Hnd) as (d & Hd & Hlook);
    [apply Hall; by left|].
  unfold positions. rewrite Hd. cbn. by rewrite Hlook.
Qed.

Lemma fix_columns_checked data args :
  check_names data (supplied args) = Return () →
  fix_columns data args = getitem (rename data (renames args)) (wanted data args).
Proof. intros Hck. unfold fix_columns. by rewrite Hck. Qed.

Lemma wanted_present data args :
  (∀ k, k ∈ wanted data args → k ∈ renamed_columns data args) ↔
  text_1 ∈ renamed_columns data args ∧ text_2 ∈ renamed_columns data args.
Proof.
  unfold wanted. split.
  - intros H. split; apply H; case_decide; repeat constructor.
  - intros [H1 H2] k Hk. case_decide as Hl.
    + repeat (apply elem_of_cons in Hk as [->|Hk]; [done|]). by apply elem_of_nil in Hk.
    + repeat (apply elem_of_cons in Hk as [->|Hk]; [done|]). by apply elem_of_nil in Hk.
Qed.

(** C7, as amended. For every data frame whose column names are pairwise
    distinct after the renaming, the frame [fix_columns] returns has exactly
    the columns text1, text2, label, in that order, when a label column is
    present after the renaming, and exactly text1, text2 when it is not; all
    other columns are dropped. *)
Theorem fix_columns_exact_columns data args (fixed : DataFrame) :
  NoDup (renamed_columns data args) →
  fix_columns data args = Return fixed →
  columns fixed =
    if decide (label ∈ renamed_columns data args)
    then ["text1"; "text2"; "label"] else ["text1"; "text2"].
Proof.
  intros Hnd Hfix.
  destruct (check_names_cases data (supplied args)) as [Hck | [msg Hck]]; last first.
  { unfold fix_columns in Hfix.
    rewrite Hck in Hfix. discriminate. }
  rewrite (fix_columns_checked _ _ Hck) in Hfix.
  destruct (getitem_cases (rename data (renames args)) (wanted data args))
    as [(Hall & selected & Hsel & Hcols) | (_ & missing & Hraise)];
    rewrite Hfix in *; [|discriminate].
  injection Hsel as <-.
  rewrite Hcols, getitem_columns_NoDup by done. reflexivity.
Qed.

(** C7 fails as stated: a renamed column that meets a column already called
    text1 leaves two columns with that name; and a frame without the needed
    columns gets no fixed frame at all. *)
Lemma fix_columns_duplicate_column :
  let data := {| columns := ["text1"; "a"; "text2"];
                 rows := [[Some "x"; Some "y"; Some "z"]] |} in
  let args := {| text_1_name := Some "a"; text_2_name := None; label_name := None |} in
  let unnamed := {| text_1_name := None; text_2_name := None; label_name := None |} in
  (∃ fixed, fix_columns data args = Return fixed ∧
     columns fixed = ["text1"; "text1"; "text2"] ∧
     columns fixed ≠ ["text1"; "text2"; "label"] ∧
     columns fixed ≠ ["text1"; "text2"]) ∧
  fix_columns {| columns := ["q1"; "q2"]; rows := [[Some "x"; Some "y"]] |} unnamed
    = Raise (KeyError ["text1"; "text2"]).
Proof.
  split; [|vm_compute; reflexivity].
  eexists. split; [vm_compute; reflexivity|]. cbn. done.
Qed.

Lemma fix_columns_exact_columns_witness :
  let data := {| columns := ["q1"; "id"; "q2"; "same"];
                 rows := [[Some "x"; Some "7"; Some "z"; Some "1"]] |} in
  let args := {| text_1_name := Some "q1"; text_2_name := Some "q2";
                 label_name := Some "same" |} in
  let fixed := {| columns := ["text1"; "text2"; "label"];
                  rows := [[Some "x"; Some "z"; Some "1"]] |} in
  NoDup (renamed_columns data args) ∧
  fix_columns data args = Return fixed ∧
  columns fixed =
    if decide (label ∈ renamed_columns data args)
    then ["text1"; "text2"; "label"] else ["text1"; "text2"].
Proof.
  intros data args fixed.
  assert (NoDup (renamed_columns data args)) as Hnd
    by (apply (bool_decide_unpack _); vm_compute; exact I).
  assert (fix_columns data args = Return fixed) as Hfix by (vm_compute; reflexivity).
  split; [exact Hnd|]. split; [exact Hfix|].
  exact (fix_columns_exact_columns data args fixed Hnd Hfix).
Defined.

(** C9 fails as stated: with every supplied name present, [fix_columns]
    still does not return when a needed column is absent after the renaming. *)
Lemma fix_columns_present_names_KeyError :
  let data := {| columns := ["a"]; rows := [[Some "x"]] |} in
  let args := {| text_1_name := Some "a"; text_2_name := None; label_name := None |} in
  (∀ name, Some name ∈ supplied args → name ∈ columns data) ∧
  fix_columns data args = Raise (KeyError ["text2"]) ∧
  ¬ returns (fix_columns data args).
Proof.
  intros data args. split_and!.
  - intros name Hname. cbn in Hname.
    repeat (apply elem_of_cons in Hname as [Heq|Hname]; [try discriminate|]).
    + injection Heq as ->. by left.
    + by apply elem_of_nil in Hname.
  - vm_compute. reflexivity.
  - intros [fixed Hfixed]. vm_compute in Hfixed. discriminate.
Qed.

(** C9, as amended. [fix_columns] raises [ValueError] if and only if one of
    the supplied (non-None) names is not a column of the input frame. When
    every supplied name is a column, it returns normally if and only if the
    columns text1 and text2 exist after the renaming, and raises [KeyError]
    otherwise. *)
Theorem fix_columns_outcomes data args :
  let all_present := ∀ name, Some name ∈ supplied args → name ∈ columns data in
  let needed := "text1" ∈ renamed_columns data args ∧ "text2" ∈ renamed_columns data args in
  (raises_ValueError (fix_columns data args) ↔
     ∃ name, Some name ∈ supplied args ∧ name ∉ columns data) ∧
  (returns (fix_columns data args) ↔ all_present ∧ needed) ∧
  (raises_KeyError (fix_columns data args) ↔ all_present ∧ ¬ needed).
Proof.
  intros all_present needed.
  destruct (check_names_cases data (supplied args)) as [Hck | [msg Hck]].
  - (* every supplied name is a column *)
    pose proof (check_names_Return_inv _ _ Hck) as Hpresent.
    rewrite (fix_columns_checked data args (check_names_Return _ _ Hpresent)).
    destruct (getitem_cases (rename data (renames args)) (wanted data args))
      as [(Hkeys & selected & -> & _) | ((k & Hk & Hmiss) & missing & ->)].
    + apply wanted_present in Hkeys. split_and!.
      * split; [intros [msg ?]; discriminate|].
        intros (name & Hname & Hout). destruct Hout. by apply Hpresent.
      * split; [done | by eexists].
      * split; [intros [? ?]; discriminate | intros [_ Hn]; by destruct Hn].
    + assert (¬ needed) as Hneeded.
      { intros Hn. by apply Hmiss, (proj2 (wanted_present data args) Hn). }
      split_and!.
      * split; [intros [msg ?]; discriminate|].
        intros (name & Hname & Hout). destruct Hout. by apply Hpresent.
      * split; [intros [? ?]; discriminate | intros [_ Hn]; by destruct Hneeded].
      * split; [done | by eexists].
  - (* a supplied name is not a column *)
    destruct (check_names_Raise_inv _ _ _ Hck) as (name & Hname & Hmiss & _).
    assert (fix_columns data args = Raise (ValueError msg)) as ->.
    { unfold fix_columns. by rewrite Hck. }
    assert (¬ all_present) as Hnp by (intros Hp; by apply Hmiss, Hp).
    split_and!.
    + split; [by exists name | by eexists].
    + split; [intros [? ?]; discriminate | intros [? _]; done].
    + split; [intros [? ?]; discriminate | intros [? _]; done].
Qed.

End FixColumnsFacts.

(** ** The batch generator *)

Import Data.

Section ChunksFacts.

Context {A : Type}.
Implicit Types (l : list A) (n fuel : nat).

Lemma chunks_aux_concat fuel n l :
  0 < n → length l ≤ fuel → concat (chunks_aux fuel n l) = l.
Proof.
  intros Hn. revert l. induction fuel as [|fuel IH]; intros l Hlen.
  - destruct l; [done | cbn in Hlen; lia].
  - destruct l as [|x l]; [done|].
    change (chunks_aux (S fuel) n (x :: l))
      with (take n (x :: l) :: chunks_aux fuel n (drop n (x :: l))).
    rewrite concat_cons, IH, take_drop; [done|].
    rewrite length_drop. cbn in *. lia.
Qed.


Lemma chunks_concat n l : 0 < n → concat (chunks n l) = l.
Proof. intros Hn. by apply chunks_aux_concat. Qed.


(** A list that fits in one run is one chunk. *)
Lemma chunks_one n l : 0 < length l ≤ n → chunks n l = [l].
Proof.
  intros Hlen. unfold chunks. destruct l as [|x l]; [cbn in Hlen; lia|].
  change (chunks_aux (length (x :: l)) n (x :: l))
    with (take n (x :: l) :: chunks_aux (length l) n (drop n (x :: l))).
  rewrite take_ge, drop_ge by lia. by destruct (length l).
Qed.

Lemma chunks_aux_sublist fuel n l :
  Forall (λ chunk, chunk `sublist_of` l) (chunks_aux fuel n l).
Proof.
  revert l. induction fuel as [|fuel IH]; intros l; [constructor|].
  destruct l as [|x l]; [constructor|].
  change (chunks_aux (S fuel) n (x :: l))
    with (take n (x :: l) :: chunks_aux fuel n (drop n (x :: l))).
  constructor; [apply sublist_take|].
  eapply Forall_impl; [apply IH|]. intros chunk Hchunk.
  etrans; [exact Hchunk | apply sublist_drop].
Qed.

Lemma chunks_sublist n l : Forall (λ chunk, chunk `sublist_of` l) (chunks n l).
Proof. apply chunks_aux_sublist. Qed.

(** Cutting every list of a family into chunks keeps the elements, in
    order. *)
Lemma concat_bind_chunks n (ls : list (list A)) :
  0 < n → concat (ls ≫= chunks n) = concat ls.
Proof.
  intros Hn. induction ls as [|l ls IH]; [done|].
  rewrite bind_cons, concat_app, IH, concat_cons. by rewrite chunks_concat.
Qed.

(** Grouping by a key: each element goes to the group of its key. *)
Lemma group_insert (f : A → nat) (x : A) (F : nat → list A) (ks : list nat) :
  NoDup ks → f x ∈ ks →
  concat ((λ k, if decide (f x = k) then x :: F k else F k) <$> ks)
    ≡ₚ x :: concat (F <$> ks).
Proof.
  induction ks as [|k ks IH]; intros Hnd Hin; [by apply elem_of_nil in Hin|].
  apply NoDup_cons in Hnd as [Hk Hnd]. rewrite !fmap_cons, !concat_cons.
  case_decide as Hfx.
  - subst k.
    assert ((λ k, if decide (f x = k) then x :: F k else F k) <$> ks = F <$> ks) as ->; [|done].
    apply list_fmap_ext. intros i k Hik. case_decide; [|done].
    subst k. destruct Hk. by eapply list_elem_of_lookup_2.
  - apply elem_of_cons in Hin as [?|Hin]; [done|].
    rewrite (IH Hnd Hin). by rewrite Permutation_middle.
Qed.

Lemma group_by_Permutation (f : A → nat) (ks : list nat) l :
  NoDup ks → (∀ x, x ∈ l → f x ∈ ks) →
  concat ((λ k, filter (λ x, f x = k) l) <$> ks) ≡ₚ l.
Proof.
  intros Hnd. induction l as [|x l IH]; intros Hin.
  - clear. induction ks as [|k ks IHks]; [done|]. exact IHks.
  - trans (x :: concat ((λ k, filter (λ x, f x = k) l) <$> ks)).
    + rewrite <- (group_insert f x (λ k, filter (λ x, f x = k) l) ks Hnd)
        by (apply Hin; by left).
      assert ((λ k, filter (λ y, f y = k) (x :: l)) <$> ks =
              (λ k, if decide (f x = k) then x :: filter (λ y, f y = k) l
                    else filter (λ y, f y = k) l) <$> ks) as ->; [|done].
      apply list_fmap_ext. intros i k _. by rewrite filter_cons.
    + f_equiv. apply IH. intros y Hy. apply Hin. by right.
Qed.

End ChunksFacts.

Section GeneratorFacts.

Context {vector : Type}.
Variable zero : vector.
Variable parse : string → list vector.

Implicit Types (g : generator) (b : batch vector) (pending : list (batch vector)).
Implicit Types (row : list cell) (some_rows block : list (list cell)).

Abbreviation epoch := (epoch zero parse).
Abbreviation islice := (islice zero parse).
Abbreviation islice_from := (islice_from zero parse).
Abbreviation embed_batch := (embed_batch zero parse).
Abbreviation pad := (pad zero).
Abbreviation row_length := (row_length parse).
Abbreviation batch_length := (batch_length parse).
Abbreviation batch_rows := (batch_rows parse).
Abbreviation buckets := (buckets parse).
Abbreviation lengths := (lengths parse).

Lemma length_pad n (sequence : list vector) : length (pad n sequence) = n.
Proof. unfold Data.pad. rewrite length_app, length_take, length_replicate. lia. Qed.

Lemma pad_exact (sequence : list vector) : pad (length sequence) sequence = sequence.
Proof.
  unfold Data.pad. rewrite firstn_all, Nat.sub_diag, app_nil_r. done.
Qed.

Lemma longest_in_ge (data : DataFrame) some_rows row :
  row ∈ some_rows →
  length (tokens parse data text_1 row) ≤ longest_in parse data some_rows ∧
  length (tokens parse data text_2 row) ≤ longest_in parse data some_rows.
Proof.
  unfold longest_in.
  induction some_rows as [|row' some_rows IH]; [by intros ?%elem_of_nil|].
  intros [->|Hrow]%elem_of_cons; cbn; [lia|].
  destruct (IH Hrow). lia.
Qed.

(** *** Buckets and batches *)

Lemma NoDup_lengths g block : NoDup (lengths g block).
Proof.
  unfold Data.lengths. rewrite merge_sort_Permutation. apply NoDup_remove_dups.
Qed.

Lemma elem_of_lengths g block n :
  n ∈ lengths g block ↔ ∃ row, row ∈ block ∧ row_length g row = n.
Proof.
  unfold Data.lengths. rewrite merge_sort_Permutation, elem_of_remove_dups.
  rewrite list_elem_of_fmap. split; intros (row & ? & ?); by exists row.
Qed.

(** The buckets of a block hold every row of the block once. *)
Lemma buckets_concat g block : concat (buckets g block) ≡ₚ block.
Proof.
  unfold Data.buckets. apply group_by_Permutation; [apply NoDup_lengths|].
  intros row Hrow. apply elem_of_lengths. by exists row.
Qed.

(** A bucket has a row, and its rows have the length of the bucket. *)
Lemma buckets_rows g block :
  Forall (λ bucket, bucket ≠ [] ∧
            ∃ n, Forall (λ row, row ∈ block ∧ row_length g row = n) bucket)
    (buckets g block).
Proof.
  unfold Data.buckets. apply Forall_fmap, Forall_forall. intros n Hn. cbn. split.
  - apply elem_of_lengths in Hn as (row & Hrow & Hlen). intros Hnil.
    assert (row ∈ filter (λ row, row_length g row = n) block) as Hin
      by by apply list_elem_of_filter.
    rewrite Hnil in Hin. by apply elem_of_nil in Hin.
  - exists n. apply Forall_forall. intros row Hrow.
    by apply list_elem_of_filter in Hrow as [? ?].
Qed.

(** An epoch goes through every row of the data once. *)
Lemma batch_rows_concat g :
  0 < batch_size g → 0 < block_size g → concat (batch_rows g) ≡ₚ rows (data g).
Proof.
  intros Hbatch Hblock. unfold Data.batch_rows.
  rewrite <- (chunks_concat (block_size g) (rows (data g)) Hblock) at 2.
  induction (chunks (block_size g) (rows (data g))) as [|block blocks IH]; [done|].
  rewrite bind_cons, concat_app, IH, concat_cons.
  by rewrite concat_bind_chunks, buckets_concat.
Qed.


(** The rows of a batch come from the data and have one length. *)
Lemma batch_rows_one_length g :
  Forall (λ some_rows,
            ∃ n, Forall (λ row, row ∈ rows (data g) ∧ row_length g row = n) some_rows)
    (batch_rows g).
Proof.
  unfold Data.batch_rows. apply Forall_bind, Forall_forall. intros block Hblock.
  assert (block `sublist_of` rows (data g)) as Hsub.
  { pose proof (chunks_sublist (block_size g) (rows (data g))) as Hall.
    rewrite Forall_forall in Hall. by apply Hall. }
  apply Forall_bind. eapply Forall_impl; [apply buckets_rows|].
  intros bucket [_ (n & Hbucket)]. cbn.
  eapply Forall_impl; [apply chunks_sublist|].
  intros some_rows Hrows. cbn in Hrows. exists n. apply Forall_forall. intros row Hrow.
  rewrite Forall_forall in Hbucket.
  destruct (Hbucket row) as [Hin Hlen]; [by eapply elem_of_sublist|].
  split; [by eapply elem_of_sublist | done].
Qed.

(** Rows of one length are padded to that length. *)
Lemma batch_length_one_length g some_rows n :
  some_rows ≠ [] → Forall (λ row, row_length g row = n) some_rows →
  batch_length g some_rows = n.
Proof.
  unfold Data.batch_length, Data.row_length, longest_in.
  induction some_rows as [|row some_rows IH]; [done|]. intros _ Hall.
  apply Forall_cons in Hall as [Hrow Hall]. cbn [foldr].
  destruct some_rows as [|row' some_rows]; [cbn; lia|].
  specialize (IH ltac:(done) Hall). lia.
Qed.

Lemma batch_rows_length g some_rows :
  some_rows ∈ batch_rows g →
  Forall (λ row, row ∈ rows (data g) ∧ row_length g row = batch_length g some_rows)
    some_rows.
Proof.
  intros Hin. pose proof (batch_rows_one_length g) as Hall.
  rewrite Forall_forall in Hall. destruct (Hall _ Hin) as (n & Hn).
  destruct some_rows as [|row some_rows]; [constructor|].
  rewrite (batch_length_one_length g (row :: some_rows) n); [done..|].
  eapply Forall_impl; [exact Hn|]. by intros ? [_ ?].
Qed.

Lemma embed_batch_lengths g some_rows :
  Forall (λ sequence, length sequence = batch_length g some_rows)
    (embedding_1 (embed_batch g some_rows) ++ embedding_2 (embed_batch g some_rows)).
Proof.
  apply Forall_app. split; apply Forall_fmap, Forall_forall; intros row _; apply length_pad.
Qed.


(** *** The cycle *)

Lemma islice_from_pending g pending pending' n :
  islice_from g (pending ++ pending') (length pending + n) =
  pending ++ islice_from g pending' n.
Proof. induction pending as [|b pending IH]; [done|]. cbn. by rewrite IH. Qed.

(** One more epoch in front. *)
Lemma islice_epoch g n :
  islice g (batches_per_epoch zero parse g + n) = epoch g ++ islice g n.
Proof.
  unfold Data.islice, batches_per_epoch.
  destruct (epoch g) as [|b pending] eqn:He; [done|].
  cbn [length Nat.add Data.islice_from Data.next]. rewrite He.
  rewrite <- (app_nil_r pending) at 1.
  by rewrite islice_from_pending.
Qed.

Lemma islice_from_take g pending m n :
  m ≤ n → islice_from g pending m = take m (islice_from g pending n).
Proof.
  revert pending n. induction m as [|m IH]; intros pending n Hmn; [done|].
  destruct n as [|n]; [lia|]. cbn.
  destruct (Data.next zero parse g pending) as [[b pending']|]; [|done].
  cbn. f_equal. apply IH. lia.
Qed.

(** The generator never runs dry when an epoch has a batch. *)
Lemma length_islice_from g pending n :
  epoch g ≠ [] → length (islice_from g pending n) = n.
Proof.
  intros He. revert pending. induction n as [|n IH]; intros pending; [done|].
  cbn. destruct pending as [|b pending]; cbn.
  - destruct (epoch g) as [|b pending] eqn:Heq; [done|]. cbn. by rewrite IH.
  - by rewrite IH.
Qed.

Lemma epoch_nonempty g :
  0 < batch_size g → 0 < block_size g → rows (data g) ≠ [] → epoch g ≠ [].
Proof.
  intros Hbatch Hblock Hrows He. apply Hrows.
  apply Permutation_nil_r. rewrite <- (batch_rows_concat g Hbatch Hblock).
  unfold Data.epoch in He. apply fmap_nil_inv in He. by rewrite He.
Qed.

(** What the generator yields at any position: the batches of the epoch,
    over and over. *)
Lemma islice_lookup g n i :
  i < n → islice g n !! i = epoch g !! (i mod batches_per_epoch zero parse g).
Proof.
  set (b := batches_per_epoch zero parse g).
  destruct (decide (b = 0)) as [Hb|Hb].
  { intros _. rewrite Hb. cbn [Nat.modulo].
    unfold b, batches_per_epoch in Hb. apply length_zero_iff_nil in Hb.
    unfold Data.islice. destruct n as [|n]; cbn; rewrite Hb; by rewrite !lookup_nil. }
  revert n. induction (lt_wf i) as [i _ IH]. intros n Hin.
  destruct (decide (i < b)) as [Hlt|Hge].
  - rewrite Nat.mod_small by done.
    unfold Data.islice. rewrite (islice_from_take g [] n (b + n)) by lia.
    rewrite lookup_take_lt by done. fold (islice g (b + n)).
    unfold b. rewrite islice_epoch. by rewrite lookup_app_l.
  - assert (n = b + (n - b)) as Hn by lia.
    rewrite Hn. unfold b at 1. rewrite islice_epoch.
    rewrite lookup_app_r by (fold (batches_per_epoch zero parse g); fold b; lia).
    fold (batches_per_epoch zero parse g). fold b.
    rewrite IH by lia. f_equal.
    replace i with ((i - b) + 1 * b) at 2 by lia.
    by rewrite Nat.Div0.mod_add.
Qed.

(** What comes out of the generator comes from an epoch. *)
Lemma islice_epoch_batches g n b : b ∈ islice g n → b ∈ epoch g.
Proof.
  intros (i & Hi)%list_elem_of_lookup_1.
  assert (i < n) as Hin.
  { apply lookup_lt_Some in Hi. unfold Data.islice in Hi.
    destruct (decide (epoch g = [])) as [He|He].
    - destruct n; cbn in Hi; [lia|]. rewrite He in Hi. cbn in Hi. lia.
    - by rewrite length_islice_from in Hi. }
  rewrite islice_lookup in Hi by done. by eapply list_elem_of_lookup_2.
Qed.

(** Asking for one epoch's worth of batches gives the epoch. *)
Lemma islice_one_epoch g : islice g (batches_per_epoch zero parse g) = epoch g.
Proof.
  rewrite <- (Nat.add_0_r (batches_per_epoch zero parse g)), islice_epoch.
  apply app_nil_r.
Qed.

(** C2. The generator cycles over the epochs: when one epoch has [b]
    batches, the batch yielded at position [i + b] is the batch yielded at
    position [i], arrays and labels alike, for every data set and every
    [i]; what is yielded at any position [j] is the batch of the epoch at
    position [j mod b]; and there is such a batch as soon as the data has a
    row (and the batch and block sizes are positive). *)
Theorem generator_cycles (data : DataFrame) (maximum_tokens : option nat)
    (batch_size block_size : nat) (i n : nat) :
  let g := UniformLengthEmbeddingGenerator parse data maximum_tokens batch_size block_size in
  let b := batches_per_epoch zero parse g in
  i + b < n →
  islice g n !! (i + b) = islice g n !! i ∧
  (∀ j, j < n → islice g n !! j = epoch g !! (j mod b)) ∧
  (b ≤ n → take b (islice g n) = epoch g) ∧
  (0 < batch_size → 0 < block_size → rows data ≠ [] → is_Some (islice g n !! i)).
Proof.
  intros g b Hin. split_and!.
  - rewrite !islice_lookup by lia. fold b.
    destruct (decide (b = 0)) as [->|Hb]; [by rewrite Nat.add_0_r|].
    replace (i + b) with (i + 1 * b) by lia. by rewrite Nat.Div0.mod_add.
  - intros j Hj. by apply islice_lookup.
  - intros Hbn. unfold Data.islice. rewrite <- islice_from_take by done.
    apply islice_one_epoch.
  - intros Hbatch Hblock Hrows. apply lookup_lt_is_Some.
    unfold Data.islice. rewrite length_islice_from; [lia|].
    by apply epoch_nonempty.
Qed.

(** C1. The generator groups the rows by length and pads within each group:
    every batch it yields holds the rows of one batch of the epoch, which
    all have the same length; both arrays of the batch hold the texts of
    these rows padded (or cut) to that length, which is the length of the
    longest text of the batch (at most [maximum_tokens]), not a length taken
    over the whole data. And the rows of one length make up one batch, when
    the data fits in a block and they fit in a batch. *)
Theorem batches_padded_to_their_own_length (data : DataFrame)
    (maximum_tokens : option nat) (batch_size block_size : nat) (n : nat) b :
  let g := UniformLengthEmbeddingGenerator parse data maximum_tokens batch_size block_size in
  b ∈ islice g n →
  (∃ some_rows padded_length,
     some_rows ∈ batch_rows g ∧
     Forall (λ row, row ∈ rows data ∧ row_length g row = padded_length) some_rows ∧
     padded_length = longest_in parse data some_rows `min` Data.maximum_tokens g ∧
     embedding_1 b = (λ row, pad padded_length (tokens parse data text_1 row)) <$> some_rows ∧
     embedding_2 b = (λ row, pad padded_length (tokens parse data text_2 row)) <$> some_rows ∧
     Forall (λ sequence, length sequence = padded_length) (embedding_1 b ++ embedding_2 b)) ∧
  (∀ row, len data ≤ block_size → row ∈ rows data →
     let group := filter (λ row', row_length g row' = row_length g row) (rows data) in
     length group ≤ batch_size → group ∈ batch_rows g).
Proof.
  intros g Hb. split.
  - apply islice_epoch_batches in Hb. unfold Data.epoch in Hb.
    apply list_elem_of_fmap in Hb as (some_rows & -> & Hrows).
    exists some_rows, (batch_length g some_rows). split_and!; [done| |done..|].
    + exact (batch_rows_length g some_rows Hrows).
    + apply embed_batch_lengths.
  - intros row Hblock Hrow group Hgroup.
    assert (row ∈ group) as Hin by by apply list_elem_of_filter.
    assert (0 < length group) as Hpos.
    { destruct group; [by apply elem_of_nil in Hin | cbn; lia]. }
    assert (0 < len data) as Hlen.
    { unfold len. destruct (rows data); [by apply elem_of_nil in Hrow | cbn; lia]. }
    unfold Data.batch_rows. cbn [Data.block_size Data.batch_size Data.data g
      UniformLengthEmbeddingGenerator].
    rewrite chunks_one by (unfold len in *; lia).
    rewrite bind_cons. change (@nil (list (list cell)) ≫= _) with (@nil (list (list cell))).
    rewrite app_nil_r.
    apply list_elem_of_bind. exists group. split.
    + rewrite chunks_one by lia. by left.
    + unfold Data.buckets. apply list_elem_of_fmap.
      exists (row_length g row). split; [done|].
      apply elem_of_lengths. by exists row.
Qed.


Lemma predict_batch_labels (model : Main.TextualEquivalenceModel vector) b :
  Forall (λ l, l = 0%Z ∨ l = 1%Z) (Main.predict_batch model b).
Proof.
  unfold Main.predict_batch. generalize (embedding_2 b).
  induction (embedding_1 b) as [|e1 l1 IH]; intros [|e2 l2]; cbn; try constructor.
  - destruct (Main.equivalent model e1 e2); [by right | by left].
  - apply IH.
Qed.

Lemma predict_batch_length (model : Main.TextualEquivalenceModel vector) g some_rows :
  length (Main.predict_batch model (embed_batch g some_rows)) = length some_rows.
Proof.
  unfold Main.predict_batch. rewrite length_zip_with. cbn.
  rewrite !length_fmap. lia.
Qed.

Lemma predict_length (model : Main.TextualEquivalenceModel vector)
    (test : DataFrame) (batch_size block_size : nat) :
  0 < batch_size → 0 < block_size →
  length (Main.predict zero parse model test batch_size block_size) = len test.
Proof.
  intros Hbatch Hblock. unfold Main.predict.
  set (g := UniformLengthEmbeddingGenerator parse test _ batch_size block_size).
  rewrite islice_one_epoch.
  unfold len. change (rows test) with (rows (Data.data g)).
  rewrite <- (Permutation_length (batch_rows_concat g Hbatch Hblock)).
  unfold Data.epoch.
  induction (batch_rows g) as [|some_rows rest IH]; [done|].
  rewrite fmap_cons, bind_cons, concat_cons, !length_app, IH.
  by rewrite predict_batch_length.
Qed.

(** C5. For every test data set of n text pairs the model's [predict]
    returns exactly n labels, one per pair, and each label is 0 or 1. *)
Theorem predict_one_label_per_pair (model : Main.TextualEquivalenceModel vector)
    (test : DataFrame) (batch_size block_size : nat) :
  0 < batch_size → 0 < block_size →
  length (Main.predict zero parse model test batch_size block_size) = len test ∧
  Forall (λ l, l = 0%Z ∨ l = 1%Z)
    (Main.predict zero parse model test batch_size block_size).
Proof.
  intros Hbatch Hblock. split; [by apply predict_length|].
  unfold Main.predict. apply Forall_bind, Forall_forall.
  intros b _. apply predict_batch_labels.
Qed.

End GeneratorFacts.

Lemma generator_cycles_witness :
  let letters := λ s : string, seq 1 (String.length s) in
  let data := {| columns := ["text1"; "text2"; "label"];
                 rows := [[Some "a"; Some "bcd"; Some "1"];
                          [Some "ab"; Some "b"; Some "0"];
                          [Some "abcde"; Some "b"; Some "0"];
                          [Some "ab"; Some "ab"; Some "1"]] |} in
  let g := UniformLengthEmbeddingGenerator letters data None 2 10 in
  let b := batches_per_epoch 0 letters g in
  1 + b < 7 ∧
  Data.islice 0 letters g 7 !! (1 + b) = Data.islice 0 letters g 7 !! 1 ∧
  (∀ j, j < 7 → Data.islice 0 letters g 7 !! j = epoch 0 letters g !! (j mod b)) ∧
  (b ≤ 7 → take b (Data.islice 0 letters g 7) = epoch 0 letters g) ∧
  (0 < 2 → 0 < 10 → rows data ≠ [] → is_Some (Data.islice 0 letters g 7 !! 1)).
Proof.
  intros letters data g b.
  assert (1 + b < 7) as Hlt by (vm_compute; lia).
  split; [exact Hlt|].
  exact (generator_cycles 0 letters data None 2 10 1 7 Hlt).
Defined.

Lemma batches_padded_to_their_own_length_witness :
  let letters := λ s : string, seq 1 (String.length s) in
  let data := {| columns := ["text1"; "text2"; "label"];
                 rows := [[Some "a"; Some "bcd"; Some "1"];
                          [Some "ab"; Some "b"; Some "0"];
                          [Some "abcde"; Some "b"; Some "0"];
                          [Some "ab"; Some "ab"; Some "1"]] |} in
  let g := UniformLengthEmbeddingGenerator letters data None 2 10 in
  let b := {| embedding_1 := [[1; 0; 0]]; embedding_2 := [[1; 2; 3]];
              labels := Some [Some "1"] |} in
  longest letters data = 5 ∧
  b ∈ Data.islice 0 letters g 2 ∧
  (∃ some_rows padded_length,
     some_rows ∈ Data.batch_rows letters g ∧
     Forall (λ row, row ∈ rows data ∧ Data.row_length letters g row = padded_length)
       some_rows ∧
     padded_length = longest_in letters data some_rows `min` Data.maximum_tokens g ∧
     embedding_1 b =
       (λ row, pad 0 padded_length (tokens letters data text_1 row)) <$> some_rows ∧
     embedding_2 b =
       (λ row, pad 0 padded_length (tokens letters data text_2 row)) <$> some_rows ∧
     Forall (λ sequence, length sequence = padded_length)
       (embedding_1 b ++ embedding_2 b)) ∧
  (∀ row, len data ≤ 10 → row ∈ rows data →
     let group := filter (λ row', Data.row_length letters g row' =
                                  Data.row_length letters g row) (rows data) in
     length group ≤ 2 → group ∈ Data.batch_rows letters g).
Proof.
  intros letters data g b.
  assert (b ∈ Data.islice 0 letters g 2) as Hb by (vm_compute; right; left).
  split; [reflexivity|]. split; [exact Hb|].
  exact (batches_padded_to_their_own_length 0 letters data None 2 10 2 b Hb).
Defined.



Lemma predict_one_label_per_pair_witness :
  let letters := λ s : string, seq 1 (String.length s) in
  let test := {| columns := ["text1"; "text2"];
                 rows := [[Some "a"; Some "b"]; [Some "abc"; Some "ab"];
                          [Some "ab"; Some "ab"]] |} in
  let model := {| Main.maximum_tokens := 2;
                  Main.equivalent := λ e1 e2 : list nat, bool_decide (e1 = e2) |} in
  0 < 2 ∧ 0 < 10 ∧
  length (Main.predict 0 letters model test 2 10) = len test ∧
  Forall (λ l, l = 0%Z ∨ l = 1%Z) (Main.predict 0 letters model test 2 10).
Proof.
  intros letters test model.
  assert (0 < 2) as H2 by lia. assert (0 < 10) as H10 by lia.
  split; [exact H2|]. split; [exact H10|].
  exact (predict_one_label_per_pair 0 letters model test 2 10 H2 H10).
Defined.

(** ** Cross-validation partitions *)

Section CrossValidationFacts.

Context {rng : Type}.
Variable shuffle : rng → list (list cell) → list (list cell) * rng.

Lemma length_partitions_from (g : rng) (data : DataFrame) (n : Z) (k : nat) :
  length (partitions_from shuffle g data n k) = k.
Proof.
  revert g data. induction k as [|k IH]; intros g data; [done|].
  cbn. destruct (shuffle g (rows data)) as [shuffled g']. cbn. by rewrite IH.
Qed.

(** The routine returns [k] partitions. *)
Lemma length_cross_validation_partitions (random_state : rng) (data : DataFrame)
    (fraction : Q) (k : Z) :
  length (cross_validation_partitions shuffle random_state data fraction k) = Z.to_nat k.
Proof. apply length_partitions_from. Qed.

Lemma slice_to_from {A : Type} (n : Z) (l : list A) :
  slice_to n l ++ slice_from n l = l.
Proof. unfold slice_to, slice_from. destruct (0 <=? n)%Z; apply take_drop. Qed.

Lemma length_slice_to {A : Type} (n : Z) (l : list A) :
  (0 ≤ n ≤ Z.of_nat (length l))%Z → length (slice_to n l) = Z.to_nat n.
Proof.
  intros Hn. unfold slice_to.
  destruct (Z.leb_spec 0 n); [|lia]. rewrite length_take. lia.
Qed.

(** Each partition splits a rearrangement of the data in two: train then
    validate hold every row once when the shuffle only rearranges. *)
Lemma partitions_from_split (g : rng) (data : DataFrame) (n : Z) (k : nat) :
  (∀ g l, (shuffle g l).1 ≡ₚ l) →
  Forall (λ p, rows p.1 ++ rows p.2 ≡ₚ rows data ∧
               rows p.1 = slice_to n (rows p.1 ++ rows p.2) ∧
               columns p.1 = columns data ∧ columns p.2 = columns data)
    (partitions_from shuffle g data n k).
Proof.
  intros Hperm. revert g data. induction k as [|k IH]; intros g data; [constructor|].
  cbn. pose proof (Hperm g (rows data)) as Hp.
  destruct (shuffle g (rows data)) as [shuffled g']. cbn in *.
  constructor.
  - cbn. rewrite slice_to_from. done.
  - eapply Forall_impl; [apply IH|].
    intros [train validate] (Hrows & Hcut & Hc1 & Hc2). cbn in *.
    split_and!; [by rewrite Hrows | done..].
Qed.

End CrossValidationFacts.

(** ** The command line *)

Section MainFacts.

Variable accepts : Operation → list string → bool.
Variable upper : string → string.
Variable configure_logger : string → bool.
Variable completes : Operation → list string → bool.

Abbreviation main := (main accepts upper configure_logger completes).

Lemma parse_flags_None (fl : list flag) :
  parse_flags fl = None ↔ (Version ∉ fl) ∧ (Help ∉ fl).
Proof.
  induction fl as [|[| |level] fl IH]; cbn.
  - split; [|done]. intros _. split; apply not_elem_of_nil.
  - split; [done|]. intros [H _]. destruct H. by left.
  - split; [done|]. intros [_ H]. destruct H. by left.
  - rewrite IH, !not_elem_of_cons. split.
    + intros [? ?]. by split_and!.
    + intros [[_ ?] [_ ?]]. by split.
Qed.

Lemma parse_flags_Some (fl : list flag) output :
  parse_flags fl = Some output → output = PrintedVersion ∨ output = PrintedHelp.
Proof.
  induction fl as [|[| |level] fl IH]; cbn; [done| | |done].
  - intros [= <-]. by left.
  - intros [= <-]. by right.
Qed.

(** The first of [--version] and [--help] decides. *)
Lemma parse_flags_first (before after : list flag) :
  Version ∉ before → Help ∉ before →
  parse_flags (before ++ after) = parse_flags after.
Proof.
  induction before as [|[| |level] before IH]; intros Hv Hh; [done| | |].
  - destruct Hv. by left.
  - destruct Hh. by left.
  - cbn. apply IH; intros ?; [apply Hv | apply Hh]; by right.
Qed.

(** The subparser a name selects: the names are distinct, so a name is bound
    to at most one operation. *)
Lemma find_subparser (name : string) :
  match list_find (λ sp, sp.1 = name) (subparsers create_argument_parser) with
  | Some (_, (name', op)) =>
      name' = name ∧
      ∀ op', (name, op') ∈ subparsers create_argument_parser ↔ op' = op
  | None => ∀ op', (name, op') ∉ subparsers create_argument_parser
  end.
Proof.
  cbn. repeat case_decide; cbn in *; subst; cbn.
  1-4: split; [done|]; intros op'; split;
    [ intros Hin; elem_of_entries Hin | intros ->; repeat constructor ].
  intros op' Hin. elem_of_entries Hin.
Qed.

(** An operation is run only by the call of [args.func]. *)
Lemma Ran_call (f : func) (arguments arguments' : list string) op :
  Ran op arguments' ∈ call completes f arguments ↔ f = run op ∧ arguments' = arguments.
Proof.
  destruct f as [|op']; cbn.
  - split; [|by intros [? _]]. intros Hin. elem_of_entries Hin.
  - split.
    + intros [[= -> ->]|Hin]%elem_of_cons; [done|].
      destruct (completes op' arguments); elem_of_entries Hin.
    + intros [[= ->] ->]. by left.
Qed.

(** C4, as amended. The command line offers exactly four operations, under
    the names train, continue, predict and cross-validation: an operation
    runs exactly when its name is the subcommand, neither [--version] nor
    [--help] comes before it, the logger takes the level and the arguments
    are accepted. [--version] or [--help], whichever comes first, prints the
    version or the help and nothing else happens. Without a subcommand none
    of the four runs, and unless [--version] or [--help] is given the
    program configures the logger and prints the usage, and only that,
    between the two messages to the log. *)
Theorem main_runs_the_named_operation (argv : command_line) :
  let level := upper (log_option (flags argv)) in
  subparsers create_argument_parser =
    [("train", Train); ("continue", ContinueTraining); ("predict", Predict);
     ("cross-validation", CreateCrossValidationPartitions)] ∧
  (∀ op arguments,
     Ran op arguments ∈ main argv ↔
     (Version ∉ flags argv) ∧ (Help ∉ flags argv) ∧ configure_logger level = true ∧
     ∃ name, subcommand argv = Some (name, arguments) ∧
       (name, op) ∈ subparsers create_argument_parser ∧
       accepts op arguments = true) ∧
  (∀ before after, flags argv = before ++ Version :: after →
     Version ∉ before → Help ∉ before → main argv = [PrintedVersion]) ∧
  (∀ before after, flags argv = before ++ Help :: after →
     Version ∉ before → Help ∉ before → main argv = [PrintedHelp]) ∧
  (subcommand argv = None →
     (∀ op arguments, Ran op arguments ∉ main argv) ∧
     (Version ∉ flags argv → Help ∉ flags argv →
        main argv =
          ConfiguredLogger level
            :: (if configure_logger level
                then [LoggedInfo "Start"; PrintedUsage; LoggedInfo "Done"]
                else [])) ∧
     (PrintedUsage ∈ main argv ↔
        (Version ∉ flags argv) ∧ (Help ∉ flags argv) ∧ configure_logger level = true)).
Proof.
  intros level.
  split; [reflexivity|].
  assert (∀ op arguments,
     Ran op arguments ∈ main argv ↔
     (Version ∉ flags argv) ∧ (Help ∉ flags argv) ∧ configure_logger level = true ∧
     ∃ name, subcommand argv = Some (name, arguments) ∧
       (name, op) ∈ subparsers create_argument_parser ∧
       accepts op arguments = true) as Hran.
  { intros op arguments. unfold Console.main, parse_args.
    destruct (parse_flags (flags argv)) as [output|] eqn:Hflags.
    { split.
      - intros Hin%list_elem_of_singleton.
        apply parse_flags_Some in Hflags as [->| ->]; discriminate.
      - intros (Hv & Hh & _).
        assert (parse_flags (flags argv) = None) as Hnone by by apply parse_flags_None.
        congruence. }
    apply parse_flags_None in Hflags as [Hv Hh]. fold level.
    assert (∀ f arguments',
      Ran op arguments ∈ ConfiguredLogger level
         :: (if configure_logger level
             then LoggedInfo "Start" :: call completes f arguments' else []) ↔
      configure_logger level = true ∧ f = run op ∧ arguments = arguments') as Hcall.
    { intros f arguments'. rewrite elem_of_cons.
      destruct (configure_logger level).
      - rewrite elem_of_cons, Ran_call. split.
        + intros [?|[?|[? ?]]]; done.
        + intros (_ & ? & ?). by right; right.
      - split; [|by intros [? _]]. intros [?|Hin]; [done|]. by apply elem_of_nil in Hin. }
    destruct (subcommand argv) as [[name arguments']|].
    2: { cbn [default_func create_argument_parser]. fold level. rewrite Hcall. split; [by intros (_ & ? & _) | by intros (_ & _ & _ & ? & ? & _)]. }
    pose proof (find_subparser name) as Hfind.
    destruct (list_find _ _) as [[i [name' op']]|].
    - destruct Hfind as [-> Hop].
      destruct (accepts op' arguments') eqn:Hacc.
      + cbn [default_func]. fold level. rewrite Hcall. split.
        * intros (Hlog & [= ->] & ->).
          split_and!; [done..|]. exists name. split_and!; [done| |done]. by apply Hop.
        * intros (_ & _ & Hlog & name'' & [= -> ->] & Hin & _).
          apply Hop in Hin as ->. done.
      + split; [by intros ?%list_elem_of_singleton|].
        intros (_ & _ & _ & name'' & [= -> ->] & Hin & Hacc').
        apply Hop in Hin as ->. congruence.
    - split; [by intros ?%list_elem_of_singleton|].
      intros (_ & _ & _ & name'' & [= -> ->] & Hin & _). by apply Hfind in Hin. }
  split; [exact Hran|].
  assert (Version ∉ flags argv → Help ∉ flags argv → subcommand argv = None →
          main argv =
            ConfiguredLogger level
              :: (if configure_logger level
                  then [LoggedInfo "Start"; PrintedUsage; LoggedInfo "Done"]
                  else [])) as Husage.
  { intros Hv Hh Hnone. unfold Console.main, parse_args.
    assert (parse_flags (flags argv) = None) as -> by by apply parse_flags_None.
    by rewrite Hnone. }
  split_and!.
  - intros before after Hfl Hv Hh. unfold Console.main, parse_args.
    by rewrite Hfl, parse_flags_first.
  - intros before after Hfl Hv Hh. unfold Console.main, parse_args.
    by rewrite Hfl, parse_flags_first.
  - intros Hnone. split_and!.
    + intros op arguments Hin.
      apply Hran in Hin as (_ & _ & _ & name & Hsub & _). congruence.
    + intros Hv Hh. by apply Husage.
    + split.
      * intros Hin.
        destruct (parse_flags (flags argv)) as [output|] eqn:Hflags.
        { unfold Console.main, parse_args in Hin. rewrite Hflags in Hin.
          apply list_elem_of_singleton in Hin.
          apply parse_flags_Some in Hflags as [->| ->]; discriminate. }
        apply parse_flags_None in Hflags as [Hv Hh]. split_and!; [done..|].
        rewrite (Husage Hv Hh Hnone) in Hin.
        destruct (configure_logger level); [done|]. elem_of_entries Hin.
      * intros (Hv & Hh & Hlog). rewrite (Husage Hv Hh Hnone), Hlog.
        do 2 right. by left.
Qed.

End MainFacts.

(** C4 fails as stated: [--version] without a subcommand prints the version,
    not the usage. *)
Lemma version_without_subcommand :
  let argv := {| flags := [Version]; subcommand := None |} in
  subcommand argv = None ∧
  main (λ _ _, true) id (λ _, true) (λ _ _, true) argv = [PrintedVersion] ∧
  PrintedUsage ∉ main (λ _ _, true) id (λ _, true) (λ _ _, true) argv.
Proof.
  cbn. split_and!; [done..|]. intros Hin. elem_of_entries Hin.
Qed.

Lemma main_runs_the_named_operation_witness :
  let accepts := λ (_ : Operation) (arguments : list string), bool_decide (arguments ≠ []) in
  let configure_logger := λ level : string, bool_decide (level ∈ ["INFO"; "WARNING"]) in
  let completes := λ (_ : Operation) (_ : list string), true in
  let argv := {| flags := [Log "INFO"]; subcommand := None |} in
  subcommand argv = None ∧ (Version ∉ flags argv) ∧ (Help ∉ flags argv) ∧
  main accepts id configure_logger completes argv =
    [ConfiguredLogger "INFO"; LoggedInfo "Start"; PrintedUsage; LoggedInfo "Done"].
Proof.
  intros accepts configure_logger completes argv.
  assert (subcommand argv = None) as Hnone by reflexivity.
  assert (Version ∉ flags argv) as Hv
    by (intros Hin; apply list_elem_of_singleton in Hin; discriminate).
  assert (Help ∉ flags argv) as Hh
    by (intros Hin; apply list_elem_of_singleton in Hin; discriminate).
  split_and!; [exact Hnone | exact Hv | exact Hh |].
  exact (proj1 (proj2 (proj2 (proj2 (proj2 (proj2
           (main_runs_the_named_operation accepts id configure_logger completes argv))))
           Hnone)) Hv Hh).
Defined.

(** ** Training history *)

Section TrainingHistoryFacts.

Import TrainingHistory.

Lemma pysize_elem_of (l : list pyval) v : v ∈ l → pysize v < pysize (PList l).
Proof.
  induction l as [|v' l IH]; [by intros ?%elem_of_nil|].
  intros [->|Hv]%elem_of_cons; cbn in *; [lia|]. specialize (IH Hv). lia.
Qed.

Lemma pysize_lookup (m : gmap string pyval) k v :
  m !! k = Some v → pysize v < pysize (PDict m).
Proof.
  intros Hk. cbn.
  rewrite (map_fold_delete_L _ _ k v m); [lia| |done].
  intros. lia.
Qed.

Lemma foldl_insert_list_to_map {V : Type} (l : list (string * V)) :
  foldl (λ (m : gmap string V) kv, <[kv.1 := kv.2]> m) ∅ l = list_to_map (reverse l).
Proof.
  induction l as [|kv l IH] using rev_ind; [done|].
  by rewrite foldl_snoc, reverse_snoc, IH.
Qed.

Lemma load_dump_bounded (n : nat) (v : pyval) :
  pysize v < n → load_json (dump v) = v.
Proof.
  revert v. induction n as [|n IH]; intros v Hn; [lia|].
  destruct v as [| | | | |l|m]; cbn; try done.
  - f_equal. rewrite <- list_fmap_compose.
    rewrite <- (list_fmap_id l) at 2. apply list_fmap_ext.
    intros i v Hv%list_elem_of_lookup_2. apply IH.
    pose proof (pysize_elem_of l v Hv). cbn in *. lia.
  - f_equal. rewrite foldl_insert_list_to_map.
    set (written := merge_sort key_le (map_to_list (dump <$> m))).
    assert (list_to_map (reverse (prod_map id load_json <$> written)) =
            (list_to_map (prod_map id load_json <$> map_to_list (dump <$> m))
               : gmap string pyval)) as ->.
    { symmetry. apply list_to_map_proper.
      - rewrite <- list_fmap_compose.
        rewrite (list_fmap_ext (fst ∘ prod_map id load_json) fst) by (by intros ? [? ?]).
        apply NoDup_fst_map_to_list.
      - rewrite reverse_Permutation. unfold written.
        by rewrite merge_sort_Permutation. }
    rewrite list_to_map_fmap, list_to_map_to_list, <- map_fmap_compose.
    rewrite <- (map_fmap_id m) at 2. apply map_fmap_ext.
    intros k v Hk. apply IH. pose proof (pysize_lookup m k v Hk). cbn in *. lia.
Qed.

(** Reading back what [json.dump] wrote gives the value written. *)
Lemma load_dump (v : pyval) : load_json (dump v) = v.
Proof. apply (load_dump_bounded (S (pysize v))). lia. Qed.

(** Saving and loading any history that [__init__] built gives it back. *)
Lemma load_save_init (o : option pyval) (fs : files) (filename : string) :
  load (save (init o) fs filename) filename = Return (init o).
Proof.
  unfold load, save. rewrite lookup_insert_eq, load_dump. f_equal.
  destruct o as [v|]; cbn; [|done].
  destruct (truthy v) eqn:Hv; cbn; [by rewrite Hv | done].
Qed.

(** C10. A training history round-trips through its file and grows by one
    per run: saving a history and loading the file gives a history with an
    equal list of runs, and [add_run] appends exactly one run and leaves the
    runs recorded before unchanged. *)
Theorem training_history_round_trip_and_growth (recorded : list pyval)
    (fs : files) (filename : string)
    (training_time : string) (samples : Z) (history : pyval) (now : string) :
  let h := {| runs := PList recorded |} in
  load (save h fs filename) filename = Return h ∧
  ∃ h', add_run h training_time samples history now = Return h' ∧
    runs h' = PList (recorded ++ [run_record training_time samples history now]) ∧
    run_count h' = S (run_count h) ∧
    ∀ i r, recorded !! i = Some r →
      (recorded ++ [run_record training_time samples history now]) !! i = Some r.
Proof.
  intros h. split.
  - unfold load, save. rewrite lookup_insert_eq, load_dump. cbn.
    by destruct recorded.
  - eexists. split; [reflexivity|]. cbn. split_and!; [done| |].
    + rewrite length_app. cbn. lia.
    + intros i r Hi. by apply lookup_app_l_Some.
Qed.

(** A training run adds one record to the history kept in the model
    directory, whether the history file was there or not. *)
Lemma update_model_directory_count (fs : files) (directory_name : string)
    (training_time : string) (samples : Z) (history : pyval) (now : string)
    (recorded : list pyval) :
  let filename := path_join directory_name "training-history.json" in
  fs !! filename = None ∧ recorded = [] ∨ fs !! filename = Some (dump (PList recorded)) →
  ∃ fs', update_model_directory fs directory_name training_time samples history now
           = Return fs' ∧
    load fs' filename =
      Return {| runs := PList (recorded ++ [run_record training_time samples history now]) |}.
Proof.
  intros filename Hfile. unfold update_model_directory. fold filename.
  destruct Hfile as [[Hnone ->] | Hsome].
  - rewrite decide_False by (rewrite Hnone; by intros [? ?]).
    cbn. eexists. split; [reflexivity|].
    unfold load, save. rewrite lookup_insert_eq, load_dump. done.
  - rewrite decide_True by (rewrite Hsome; by eexists).
    unfold load at 1. rewrite Hsome, load_dump.
    assert (init (Some (PList recorded)) = {| runs := PList recorded |}) as ->
      by by destruct recorded.
    cbn. eexists. split; [reflexivity|].
    unfold load, save. rewrite lookup_insert_eq, load_dump. cbn.
    by destruct recorded.
Qed.

End TrainingHistoryFacts.

(** * Further properties *)

(** ** [data_file], [fix_columns] and the options that select rows *)

Section PreparationFacts.

Implicit Types (data fixed : DataFrame) (args : Namespace).

Lemma length_filter_split {A : Type} (P : A → Prop) `{!∀ x, Decision (P x)} (l : list A) :
  length (filter P l) + length (filter (λ x, ¬ P x) l) = length l.
Proof.
  induction l as [|x l IH]; [done|].
  destruct (decide (P x)) as [HP|HP].
  - rewrite (filter_cons_True P) by done.
    rewrite (filter_cons_False (λ x, ¬ P x)) by (intros Hn; by apply Hn).
    cbn. lia.
  - rewrite (filter_cons_False P) by done.
    rewrite (filter_cons_True (λ x, ¬ P x)) by done.
    cbn. lia.
Qed.

Lemma filter_all {A : Type} (P : A → Prop) `{!∀ x, Decision (P x)} (l : list A) :
  Forall P l ↔ filter P l = l.
Proof.
  split.
  - induction 1 as [|x l HP _ IH]; [done|]. by rewrite filter_cons_True, IH.
  - intros Heq. apply Forall_forall. intros x Hx. rewrite <- Heq in Hx.
    by apply list_elem_of_filter in Hx as [? _].
Qed.

(** X1. [data_file] reports to the log exactly the number of rows that hold
    a null, and reports nothing when no row does, in which case the frame
    read from the file is returned as it is. *)
Theorem data_file_log_counts_rows_with_null (read_csv : string → DataFrame)
    (filename : string) :
  let loaded := read_csv filename in
  let with_null := length (filter (λ row, ¬ not_null row) (rows loaded)) in
  (data_file read_csv filename).2 = (if decide (with_null = 0) then None else Some with_null) ∧
  (with_null = 0 ↔ Forall not_null (rows loaded)) ∧
  (with_null = 0 → (data_file read_csv filename).1 = loaded).
Proof.
  intros loaded with_null.
  pose proof (length_filter_split not_null (rows loaded)) as Hsplit.
  fold with_null in Hsplit.
  assert (with_null = 0 ↔ Forall not_null (rows loaded)) as Hzero.
  { unfold with_null. rewrite length_zero_iff_nil, filter_nil_iff, Forall_forall.
    split; intros H row Hrow.
    - destruct (decide (not_null row)) as [|Hnot]; [done|]. by destruct (H row Hrow).
    - intros Hnot. by apply Hnot, H. }
  split_and!; [|done|].
  - unfold data_file, len, dropna; cbn. fold loaded.
    repeat case_decide; try done; try lia. f_equal. lia.
  - intros H0. apply Hzero in H0. apply (proj1 (filter_all _ _)) in H0.
    unfold data_file, dropna; cbn. fold loaded. rewrite H0. by destruct loaded.
Qed.

(** What [data[keys]] returns, when it returns. *)
Lemma getitem_Return_inv data (keys : list string) (selected : DataFrame) :
  getitem data keys = Return selected →
  let indexer := keys ≫= (λ k, positions k (columns data)) in
  (∀ k, k ∈ keys → k ∈ columns data) ∧
  columns selected = (λ i, default "" (columns data !! i)) <$> indexer ∧
  rows selected = (λ row, (λ i, default None (row !! i)) <$> indexer) <$> rows data.
Proof.
  intros Hget indexer.
  destruct (getitem_cases data keys) as [(Hall & _) | (_ & ? & Hraise)];
    [|rewrite Hget in Hraise; discriminate].
  split; [done|]. unfold getitem in Hget.
  destruct (filter _ keys); [|discriminate]. by injection Hget as <-.
Qed.

(** What [fix_columns] returns, when it returns: a selection of columns of
    the renamed frame. *)
Lemma fix_columns_Return_inv data args fixed :
  fix_columns data args = Return fixed →
  getitem (rename data (renames args)) (wanted data args) = Return fixed.
Proof.
  intros Hfix.
  destruct (check_names_cases data (supplied args)) as [Hck | [msg Hck]].
  - by rewrite <- (fix_columns_checked _ _ Hck).
  - unfold fix_columns in Hfix. rewrite Hck in Hfix. discriminate.
Qed.

Lemma fix_columns_rows data args fixed :
  fix_columns data args = Return fixed →
  len fixed = len data ∧
  Forall (λ row, length row = length (columns fixed)) (rows fixed).
Proof.
  intros Hfix%fix_columns_Return_inv%getitem_Return_inv.
  destruct Hfix as (_ & Hcols & Hrows). cbn in Hrows. unfold len.
  rewrite Hrows, Hcols, length_fmap. split; [done|].
  apply Forall_fmap, Forall_forall. intros row _. cbn. by rewrite !length_fmap.
Qed.

(** X2. [fix_columns] never drops or adds rows: the frame it returns has as
    many rows as the input, and each of them has one cell per column kept. *)
Theorem fix_columns_keeps_rows data args fixed :
  fix_columns data args = Return fixed →
  len fixed = len data ∧
  Forall (λ row, length row = length (columns fixed)) (rows fixed).
Proof. apply fix_columns_rows. Qed.

(** X3. The [ValueError] of [fix_columns] names the first of the supplied
    names, in the order text 1, text 2, label, that is not a column. *)
Theorem fix_columns_names_first_missing data args (msg : string) :
  fix_columns data args = Raise (ValueError msg) →
  ∃ before name after,
    supplied args = before ++ Some name :: after ∧
    (name ∉ columns data) ∧
    (∀ name', Some name' ∈ before → name' ∈ columns data) ∧
    msg = "Missing column " +:+ name.
Proof.
  intros Hfix.
  assert (check_names data (supplied args) = Raise (ValueError msg)) as Hck.
  { unfold fix_columns in Hfix.
    destruct (check_names data (supplied args)) as [[]|e] eqn:Hck.
    - cbn in Hfix. unfold getitem in Hfix.
      destruct (filter _ _); discriminate.
    - cbn in Hfix. by injection Hfix as ->. }
  clear Hfix. revert Hck. generalize (supplied args) as names.
  induction names as [|[n|] names IH]; cbn; intros Hck; [discriminate| |].
  - case_decide as Hn.
    + destruct (IH Hck) as (before & name & after & -> & Hmiss & Hbefore & ->).
      exists (Some n :: before), name, after. split_and!; [done..| |done].
      intros name' [[= ->]|Hin]%elem_of_cons; [done | by apply Hbefore].
    + injection Hck as <-. exists [], n, names. split_and!; [done..| |done].
      by intros name' ?%elem_of_nil.
  - destruct (IH Hck) as (before & name & after & -> & Hmiss & Hbefore & ->).
    exists (None :: before), name, after. split_and!; [done..| |done].
    intros name' [[=]|Hin]%elem_of_cons. by apply Hbefore.
Qed.

(** *** Which cells end up under which name *)

Lemma positions_from_member (cols : list string) key i :
  key ∈ cols →
  ∃ q rest, positions_from i key cols = (i + q) :: rest ∧ cols !! q = Some key.
Proof.
  revert i. induction cols as [|c cols IH]; intros i Hin; cbn.
  - by apply elem_of_nil in Hin.
  - case_decide as Hc.
    + subst c. exists 0, (positions_from (S i) key cols). split; [f_equal; lia | done].
    + apply elem_of_cons in Hin as [->|Hin]; [done|].
      destruct (IH (S i) Hin) as (q & rest & -> & Hq).
      exists (S q), rest. split; [f_equal; lia | done].
Qed.

(** In a header without repetition the indexer of a selection holds, key by
    key, the position of the key. *)
Lemma indexer_NoDup (cols keys : list string) :
  NoDup cols → (∀ k, k ∈ keys → k ∈ cols) →
  Forall2 (λ k p, cols !! p = Some k) keys (keys ≫= (λ k, positions k cols)).
Proof.
  intros Hnd. induction keys as [|k keys IH]; intros Hall; [constructor|].
  rewrite bind_cons.
  destruct (positions_from_NoDup cols k 0 Hnd) as (d & Hd & Hlook); [apply Hall; by left|].
  unfold positions at 1. rewrite Hd. cbn. constructor; [done|].
  apply IH. intros k' ?. apply Hall. by right.
Qed.

Lemma NoDup_wanted data args : NoDup (wanted data args).
Proof.
  unfold wanted. case_decide; apply (bool_decide_unpack _); vm_compute; exact I.
Qed.

(** The cells of a column of the input are found, row by row, under the
    name the renaming gives it. *)
Lemma fix_columns_cells data args fixed (c target : string) :
  NoDup (renamed_columns data args) →
  fix_columns data args = Return fixed →
  c ∈ columns data →
  default c (renames args !! Some c) = target →
  target ∈ wanted data args →
  ∀ i row, rows data !! i = Some row →
    ∃ row', rows fixed !! i = Some row' ∧
      cell_of fixed target row' = cell_of data c row.
Proof.
  intros Hnd Hfix Hc Htarget Hwanted i row Hrow.
  apply fix_columns_Return_inv, getitem_Return_inv in Hfix as (Hall & Hcols & Hrows).
  rewrite (getitem_columns_NoDup (rename data (renames args))) in Hcols by done.
  change (rows (rename data (renames args))) with (rows data) in Hrows.
  fold (renamed_columns data args) in Hall, Hrows.
  set (indexer := wanted data args ≫= (λ k, positions k (renamed_columns data args))) in *.
  eexists. split; [rewrite Hrows, list_lookup_fmap, Hrow; reflexivity|].
  (* where [target] sits in the fixed frame *)
  destruct (positions_from_NoDup (wanted data args) target 0 (NoDup_wanted data args) Hwanted)
    as (j & Hj & Hwj).
  unfold cell_of at 1. rewrite Hcols. unfold positions. rewrite Hj. cbn [Nat.add].
  pose proof (indexer_NoDup _ _ Hnd Hall) as Hidx. fold indexer in Hidx.
  destruct (Forall2_lookup_l _ _ _ _ _ Hidx Hwj) as (p & Hp & Hrp).
  rewrite list_lookup_fmap, Hp. cbn.
  (* where [c] sits in the input *)
  destruct (positions_from_member (columns data) c 0 Hc) as (q & rest & Hq & Hcq).
  unfold cell_of, positions. rewrite Hq. cbn [Nat.add].
  assert (renamed_columns data args !! q = Some target) as Hrq.
  { unfold renamed_columns, rename. cbn. by rewrite list_lookup_fmap, Hcq, <- Htarget. }
  by rewrite (NoDup_lookup _ _ _ _ Hnd Hrp Hrq).
Qed.

Lemma renames_text_1 args (a : string) :
  text_1_name args = Some a → text_2_name args ≠ Some a → label_name args ≠ Some a →
  renames args !! Some a = Some text_1.
Proof.
  intros H1 H2 H3. unfold renames.
  rewrite lookup_insert_ne, lookup_insert_ne by done.
  rewrite H1. apply lookup_insert_eq.
Qed.

Lemma renames_text_2 args (b : string) :
  text_2_name args = Some b → label_name args ≠ Some b →
  renames args !! Some b = Some text_2.
Proof.
  intros H2 H3. unfold renames.
  rewrite lookup_insert_ne by done. rewrite H2. apply lookup_insert_eq.
Qed.

Lemma renames_label args (c : string) :
  label_name args = Some c → renames args !! Some c = Some label.
Proof. intros H3. unfold renames. rewrite H3. apply lookup_insert_eq. Qed.

Lemma text_in_wanted data args :
  text_1 ∈ wanted data args ∧ text_2 ∈ wanted data args.
Proof. unfold wanted. case_decide; split; repeat constructor. Qed.

(** X4. The columns named on the command line are the ones that are kept:
    when the header has no repetition after the renaming, the column given
    as [--text-1-name] is found, row by row, as text1 in the frame
    [fix_columns] returns, and likewise the one given as [--text-2-name] as
    text2 (a name given for a later option too goes to the later one). *)
Theorem fix_columns_named_columns data args fixed :
  NoDup (renamed_columns data args) →
  fix_columns data args = Return fixed →
  (∀ a, text_1_name args = Some a → text_2_name args ≠ Some a → label_name args ≠ Some a →
     ∀ i row, rows data !! i = Some row →
       ∃ row', rows fixed !! i = Some row' ∧ cell_of fixed "text1" row' = cell_of data a row) ∧
  (∀ b, text_2_name args = Some b → label_name args ≠ Some b →
     ∀ i row, rows data !! i = Some row →
       ∃ row', rows fixed !! i = Some row' ∧ cell_of fixed "text2" row' = cell_of data b row).
Proof.
  intros Hnd Hfix.
  assert (∀ name, Some name ∈ supplied args → name ∈ columns data) as Hpresent.
  { apply check_names_Return_inv.
    destruct (check_names_cases data (supplied args)) as [Hck | [msg Hck]]; [done|].
    unfold fix_columns in Hfix. rewrite Hck in Hfix. discriminate. }
  split.
  - intros a H1 H2 H3. apply (fix_columns_cells data args fixed a text_1); try done.
    + apply Hpresent. rewrite <- H1. unfold supplied. by left.
    + by rewrite renames_text_1.
    + apply text_in_wanted.
  - intros b H2 H3. apply (fix_columns_cells data args fixed b text_2); try done.
    + apply Hpresent. rewrite <- H2. unfold supplied. right. by left.
    + by rewrite renames_text_2.
    + apply text_in_wanted.
Qed.

(** *** Fixing twice *)

Lemma rename_no_names data : rename data (renames no_names) = data.
Proof.
  destruct data as [cols rs]. unfold rename. cbn. f_equal.
  rewrite <- (list_fmap_id cols) at 2. apply list_fmap_ext. intros i c _.
  unfold renames. cbn. by rewrite !lookup_insert_ne, lookup_empty by done.
Qed.

Lemma project_all3 (row : list cell) :
  length row = 3 → (λ i, default None (row !! i)) <$> [0; 1; 2] = row.
Proof. destruct row as [|? [|? [|? [|? ?]]]]; by intros [=]. Qed.

Lemma project_all2 (row : list cell) :
  length row = 2 → (λ i, default None (row !! i)) <$> [0; 1] = row.
Proof. destruct row as [|? [|? [|? ?]]]; by intros [=]. Qed.

Lemma fix_columns_again data args fixed :
  NoDup (renamed_columns data args) →
  fix_columns data args = Return fixed →
  fix_columns fixed no_names = Return fixed.
Proof.
  intros Hnd Hfix.
  destruct (fix_columns_rows _ _ _ Hfix) as [_ Hlen].
  apply fix_columns_Return_inv, getitem_Return_inv in Hfix as (Hall & Hcols & _).
  rewrite (getitem_columns_NoDup (rename data (renames args))) in Hcols by done.
  unfold fix_columns. cbn. rewrite rename_no_names.
  destruct fixed as [cols rs]. cbn in *. subst cols.
  unfold wanted in *. case_decide.
  - rewrite decide_True by (repeat constructor).
    unfold getitem. cbn. f_equal. f_equal.
    rewrite <- (list_fmap_id rs) at 2. apply Forall_fmap_ext_1.
    eapply Forall_impl; [exact Hlen|]. intros row Hrow. by apply project_all3.
  - rewrite decide_False
      by (intros Hin; repeat (apply elem_of_cons in Hin as [[=]|Hin]); by apply elem_of_nil in Hin).
    unfold getitem. cbn. f_equal. f_equal.
    rewrite <- (list_fmap_id rs) at 2. apply Forall_fmap_ext_1.
    eapply Forall_impl; [exact Hlen|]. intros row Hrow. by apply project_all2.
Qed.

(** X5. Fixing the columns twice changes nothing: a frame returned by
    [fix_columns] (from a header without repetition after the renaming) goes
    through [fix_columns] unchanged when no column name is supplied. *)
Theorem fix_columns_idempotent data args fixed :
  NoDup (renamed_columns data args) →
  fix_columns data args = Return fixed →
  fix_columns fixed
    {| text_1_name := None; text_2_name := None; label_name := None |} = Return fixed.
Proof. apply fix_columns_again. Qed.

(** *** One name for two options *)

Lemma renames_same_name args (n c : string) :
  text_1_name args = Some n → text_2_name args = Some n →
  renames args !! Some c ≠ Some text_1.
Proof.
  intros H1 H2. unfold renames. rewrite H1, H2.
  destruct (decide (label_name args = Some c)) as [->|Hl].
  - rewrite lookup_insert_eq. discriminate.
  - rewrite lookup_insert_ne by done.
    destruct (decide (n = c)) as [->|Hn].
    + rewrite lookup_insert_eq. discriminate.
    + rewrite !lookup_insert_ne by congruence. by rewrite lookup_empty.
Qed.

(** X6. Naming one column for both texts does not give a frame that
    compares the column with itself: the later entry of the renaming wins,
    the column becomes text2, and unless the data has a column text1 of its
    own [fix_columns] does not return. *)
Theorem fix_columns_same_name_for_both_texts data args (n : string) :
  text_1_name args = Some n → text_2_name args = Some n →
  "text1" ∉ columns data →
  ¬ returns (fix_columns data args).
Proof.
  intros H1 H2 Hno [fixed Hfix].
  apply fix_columns_Return_inv, getitem_Return_inv in Hfix as (Hall & _).
  cbn in Hall. specialize (Hall text_1 (proj1 (text_in_wanted data args))).
  apply list_elem_of_fmap in Hall as (c & Hc & Hin).
  destruct (renames args !! Some c) as [target|] eqn:Hren; cbn in Hc.
  - subst target. by apply (renames_same_name args n c H1 H2).
  - subst c. by apply Hno.
Qed.

(** *** The option [--n] *)

Lemma len_head data (n : option Z) :
  len (head data n) =
    match n with
    | None => len data
    | Some k => if (0 <=? k)%Z then Z.to_nat k `min` len data
                else len data - Z.to_nat (- k)
    end.
Proof.
  destruct n as [k|]; [|done]. unfold head, len, slice_to; cbn.
  destruct (0 <=? k)%Z; rewrite length_take; lia.
Qed.

End PreparationFacts.

(** ** The files of [create_cross_validation_partitions] *)

Section PartitionFilesFacts.

Context {rng : Type}.
Variable shuffle : rng → list (list cell) → list (list cell) * rng.

(** Two entries per element, in the order of the list. *)
Lemma imap_pairs_lookup {A B : Type} (g h : nat → A → B) (l : list A) :
  length (imap (λ i x, [g i x; h i x]) l ≫= id) = 2 * length l ∧
  ∀ i x, l !! i = Some x →
    (imap (λ i x, [g i x; h i x]) l ≫= id) !! (2 * i) = Some (g i x) ∧
    (imap (λ i x, [g i x; h i x]) l ≫= id) !! (2 * i + 1) = Some (h i x).
Proof.
  revert g h. induction l as [|y l IH]; intros g h.
  - split; [done|]. intros i x Hi. by rewrite lookup_nil in Hi.
  - destruct (IH (g ∘ S) (h ∘ S)) as [Hlen Hlook].
    change (imap (λ i x, [g i x; h i x]) (y :: l) ≫= id)
      with (g 0 y :: h 0 y :: (imap (λ i x, [(g ∘ S) i x; (h ∘ S) i x]) l ≫= id)).
    set (rest := imap (λ i x, [(g ∘ S) i x; (h ∘ S) i x]) l ≫= id) in *.
    split; [cbn; lia|].
    intros [|i] x Hi.
    + injection Hi as <-. done.
    + cbn in Hi. destruct (Hlook i x Hi) as [Hg Hh].
      replace (2 * S i) with (S (S (2 * i))) by lia.
      replace (S (S (2 * i)) + 1) with (S (S (2 * i + 1))) by lia.
      done.
Qed.

Lemma written_files (random_state : rng) (data : DataFrame) (n : option Z)
    (args : Namespace) (fraction : Q) (k : Z) (prefix output_directory : string)
    (written : list (string * DataFrame)) :
  create_cross_validation_partitions shuffle random_state data n args fraction k
    prefix output_directory = Return written →
  ∃ fixed, fix_columns (head data n) args = Return fixed ∧
    let partitions := cross_validation_partitions shuffle random_state fixed fraction k in
    length written = 2 * length partitions ∧
    ∀ i train validate, partitions !! i = Some (train, validate) →
      written !! (2 * i) =
        Some (partition_name output_directory prefix i "train", train) ∧
      written !! (2 * i + 1) =
        Some (partition_name output_directory prefix i "validate", validate).
Proof.
  unfold create_cross_validation_partitions.
  destruct (fix_columns (head data n) args) as [fixed|e]; [|discriminate].
  cbn. intros [= <-]. exists fixed. split; [done|]. cbn zeta.
  set (partitions := cross_validation_partitions shuffle random_state fixed fraction k).
  pose proof (imap_pairs_lookup
    (λ i p, (partition_name output_directory prefix i "train", p.1))
    (λ i p, (partition_name output_directory prefix i "validate", p.2))
    partitions) as [Hlen Hlook].
  assert (imap (λ i '(train_partition, validate_partition),
                  [(partition_name output_directory prefix i "train", train_partition);
                   (partition_name output_directory prefix i "validate", validate_partition)])
            partitions =
          imap (λ i p, [(partition_name output_directory prefix i "train", p.1);
                        (partition_name output_directory prefix i "validate", p.2)])
            partitions) as ->.
  { apply imap_ext. by intros i [? ?] _. }
  split; [done|]. intros i train validate Hi. exact (Hlook i _ Hi).
Qed.

(** X8. [create_cross_validation_partitions] writes two files for each
    partition the routine returns and nothing else: for partition number [i]
    (counted from 0), first the training part under the name
    [os.path.join(output_directory, prefix.(i+1).train.csv)], then the
    validation part under
    [os.path.join(output_directory, prefix.(i+1).validate.csv)]. *)
Theorem cross_validation_files (random_state : rng) (data : DataFrame) (n : option Z)
    (args : Namespace) (fraction : Q) (k : Z) (prefix output_directory : string)
    (written : list (string * DataFrame)) :
  create_cross_validation_partitions shuffle random_state data n args fraction k
    prefix output_directory = Return written →
  ∃ fixed, fix_columns (head data n) args = Return fixed ∧
    let partitions := cross_validation_partitions shuffle random_state fixed fraction k in
    length written = 2 * length partitions ∧
    ∀ i train validate, partitions !! i = Some (train, validate) →
      written !! (2 * i) =
        Some (path_join output_directory
                (prefix +:+ "." +:+ pretty (i + 1) +:+ ".train.csv"), train) ∧
      written !! (2 * i + 1) =
        Some (path_join output_directory
                (prefix +:+ "." +:+ pretty (i + 1) +:+ ".validate.csv"), validate).
Proof. apply written_files. Qed.

End PartitionFilesFacts.

(** *** No two partition files share a name *)

Lemma dotless_pretty_N_go (x : N) (s : string) : dotless s → dotless (pretty_N_go x s).
Proof.
  revert s. induction (N.lt_wf_0 x) as [x _ IH]; intros s Hs.
  assert (x = 0 ∨ 0 < x)%N as [->|?] by lia.
  - by rewrite pretty_N_go_0.
  - rewrite pretty_N_go_step by done. apply IH; [by apply N.div_lt|].
    split; [|done]. unfold pretty_N_char. by repeat case_match.
Qed.

Lemma dotless_pretty_nat (i : nat) : dotless (pretty i).
Proof.
  unfold pretty, pretty_nat, pretty, pretty_N. case_decide.
  - by split.
  - by apply dotless_pretty_N_go.
Qed.

(** A text is cut at its first dot in one way only. *)
Lemma dotless_split (s1 s2 r1 r2 : string) :
  dotless s1 → dotless s2 →
  s1 +:+ String dot r1 = s2 +:+ String dot r2 → s1 = s2 ∧ r1 = r2.
Proof.
  revert s2. induction s1 as [|c1 s1 IH]; intros [|c2 s2]; cbn.
  - intros _ _ [= ->]. done.
  - intros _ [Hc _] [= <- _]. done.
  - intros [Hc _] _ [= -> _]. done.
  - intros [_ H1] [_ H2] [= -> Heq]. destruct (IH s2 H1 H2 Heq) as [-> ->]. done.
Qed.

(** Whether a name is absolute shows on its first character. *)
Lemma prefix_slash_cons (c : Ascii.ascii) (s s' : string) :
  String.prefix "/" (String c s) = String.prefix "/" (String c s').
Proof.
  apply Bool.eq_true_iff_eq. rewrite !String.prefix_correct.
  change (String c (String.substring 0 0 s) = "/" ↔ String c (String.substring 0 0 s') = "/").
  by destruct s, s'.
Qed.

(** Two names that start with the same prefix followed by a dot are joined
    to a directory in the same way: both replace it, or both are appended. *)
Lemma path_join_inj (directory_name prefix r1 r2 : string) :
  path_join directory_name (prefix +:+ String dot r1) =
  path_join directory_name (prefix +:+ String dot r2) →
  r1 = r2.
Proof.
  unfold path_join.
  assert (String.prefix "/" (prefix +:+ String dot r1) =
          String.prefix "/" (prefix +:+ String dot r2)) as <-.
  { destruct prefix as [|c prefix]; [by lazy|].
    change (String c prefix +:+ ?r) with (String c (prefix +:+ r)).
    apply prefix_slash_cons. }
  assert (∀ r, prefix +:+ String dot r1 = prefix +:+ String dot r → r1 = r) as Hname.
  { intros r Heq%String.app_inj. by injection Heq. }
  destruct (String.prefix _ _); [by apply Hname|].
  case_decide; [by apply Hname|].
  destruct (String.eqb _ _); intros Heq%String.app_inj; [by apply Hname|].
  apply String.app_inj in Heq. by apply Hname.
Qed.

Lemma partition_name_inj (output_directory prefix : string) (i j : nat) (a b : string) :
  a ∈ ["train"; "validate"] → b ∈ ["train"; "validate"] →
  partition_name output_directory prefix i a = partition_name output_directory prefix j b →
  i = j ∧ a = b.
Proof.
  intros Ha Hb Heq. unfold partition_name in Heq.
  change ("." +:+ ?s) with (String dot s) in Heq.
  apply path_join_inj in Heq.
  change (pretty (i + 1) +:+ String dot (a +:+ ".csv") =
          pretty (j + 1) +:+ String dot (b +:+ ".csv")) in Heq.
  apply dotless_split in Heq as [Hij Hab]; [|apply dotless_pretty_nat..].
  apply (inj pretty) in Hij. split; [lia|].
  repeat (apply elem_of_cons in Ha as [->|Ha]);
    repeat (apply elem_of_cons in Hb as [->|Hb]);
    try (by apply elem_of_nil in Ha); try (by apply elem_of_nil in Hb);
    try done; discriminate.
Qed.

(** An absolute prefix takes the files out of the output directory. *)
Example partition_name_absolute_prefix :
  partition_name "out" "/tmp/x/p" 0 "train" = "/tmp/x/p.1.train.csv" ∧
  partition_name "out" "p" 0 "train" = "out/p.1.train.csv".
Proof. split; reflexivity. Qed.

(** X9. The files of different partitions, and the two files of one
    partition, have different names: nothing that
    [create_cross_validation_partitions] writes is overwritten by a later
    partition. *)
Theorem partition_names_differ (output_directory prefix : string) (i j : nat)
    (a b : string) :
  a ∈ ["train"; "validate"] → b ∈ ["train"; "validate"] →
  (i, a) ≠ (j, b) →
  path_join output_directory (prefix +:+ "." +:+ pretty (i + 1) +:+ "." +:+ a +:+ ".csv") ≠
  path_join output_directory (prefix +:+ "." +:+ pretty (j + 1) +:+ "." +:+ b +:+ ".csv").
Proof.
  intros Ha Hb Hne Heq. apply Hne.
  destruct (partition_name_inj output_directory prefix i j a b Ha Hb Heq) as [-> ->]. done.
Qed.

(** ** The history file *)

Section HistoryFileFacts.

Import TrainingHistory.

Lemma foldl_insert_nonempty {V : Type} (l : list (string * V)) :
  l ≠ [] → foldl (λ (m : gmap string V) kv, <[kv.1 := kv.2]> m) ∅ l ≠ ∅.
Proof.
  destruct l as [|kv l _] using rev_ind; [done|]. intros _.
  rewrite foldl_snoc. apply insert_non_empty.
Qed.

Lemma truthy_load_json (doc : json) :
  truthy (load_json doc) = negb (empty_document doc).
Proof.
  destruct doc as [|b| | | |l|members]; cbn; try done.
  - by destruct b.
  - by destruct l.
  - destruct members as [|kv members]; [done|].
    destruct (map_to_list _) as [|? ?] eqn:Hlist; [|done].
    apply map_to_list_empty_iff in Hlist.
    by apply foldl_insert_nonempty in Hlist.
Qed.

Lemma load_document (fs : files) (filename : string) (doc : json) :
  fs !! filename = Some doc →
  load fs filename =
    Return {| runs := if empty_document doc then PList [] else load_json doc |}.
Proof.
  intros Hdoc. unfold load, init. rewrite Hdoc, truthy_load_json.
  by destruct (empty_document doc).
Qed.

(** X10. A history file that holds [null], [false], a zero, an empty
    string, an empty array or an empty object is read as an empty history,
    without error; any other document becomes the runs as it is, list or
    not. *)
Theorem load_empty_document (fs : files) (filename : string) (doc : json) :
  fs !! filename = Some doc →
  load fs filename =
    Return {| runs := if empty_document doc then PList [] else load_json doc |}.
Proof. apply load_document. Qed.

Lemma load_json_list_inv (doc : json) (l : list pyval) :
  load_json doc = PList l → ∃ l', doc = JArray l'.
Proof. destruct doc; cbn; try discriminate. by eexists. Qed.

Lemma update_corrupt (fs : files) (directory_name : string)
    (training_time : string) (samples : Z) (history : pyval) (now : string)
    (doc : json) :
  fs !! path_join directory_name "training-history.json" = Some doc →
  empty_document doc = false →
  (∀ l, doc ≠ JArray l) →
  update_model_directory fs directory_name training_time samples history now =
    Raise (AttributeError "append").
Proof.
  intros Hdoc Hempty Hnot. unfold update_model_directory.
  rewrite decide_True by (rewrite Hdoc; by eexists).
  rewrite (load_document _ _ _ Hdoc), Hempty. cbn. unfold add_run. cbn.
  destruct (load_json doc) as [| | | | |l|m] eqn:Hload; try done.
  destruct (load_json_list_inv _ _ Hload) as [l' ->]. by destruct (Hnot l').
Qed.

(** X11. When the history file of the model directory holds something else
    than a list of runs (an object with members, a number, a text),
    [update_model_directory] raises [AttributeError] and writes nothing: the
    run is not recorded. *)
Theorem update_model_directory_rejects_non_list (fs : files) (directory_name : string)
    (training_time : string) (samples : Z) (history : pyval) (now : string)
    (doc : json) :
  fs !! path_join directory_name "training-history.json" = Some doc →
  empty_document doc = false →
  (∀ l, doc ≠ JArray l) →
  update_model_directory fs directory_name training_time samples history now =
    Raise (AttributeError "append").
Proof. apply update_corrupt. Qed.

Lemma update_frame (fs fs' : files) (directory_name : string)
    (training_time : string) (samples : Z) (history : pyval) (now : string) :
  update_model_directory fs directory_name training_time samples history now = Return fs' →
  ∃ doc, fs' = <[path_join directory_name "training-history.json" := doc]> fs.
Proof.
  unfold update_model_directory.
  set (filename := path_join directory_name "training-history.json").
  destruct (if decide (is_Some (fs !! filename)) then load fs filename
            else Return (init None)) as [h|e]; [|discriminate].
  cbn. destruct (add_run h training_time samples history now) as [h'|e]; [|discriminate].
  cbn. intros [= <-]. by eexists.
Qed.

(** X12. [update_model_directory] touches one file only: after it returns,
    the history file of the directory exists and every other file is as it
    was. *)
Theorem update_model_directory_other_files (fs fs' : files) (directory_name : string)
    (training_time : string) (samples : Z) (history : pyval) (now : string) :
  update_model_directory fs directory_name training_time samples history now = Return fs' →
  is_Some (fs' !! path_join directory_name "training-history.json") ∧
  ∀ filename, filename ≠ path_join directory_name "training-history.json" →
    fs' !! filename = fs !! filename.
Proof.
  intros [doc ->]%update_frame. split.
  - rewrite lookup_insert_eq. by eexists.
  - intros filename Hne. by rewrite lookup_insert_ne.
Qed.

(** One more run in a history file that holds a list of runs, or in a
    directory without history file. *)
Lemma update_recorded (fs : files) (directory_name : string)
    (training_time : string) (samples : Z) (history : pyval) (now : string)
    (recorded : list pyval) :
  let filename := path_join directory_name "training-history.json" in
  fs !! filename = None ∧ recorded = [] ∨ fs !! filename = Some (dump (PList recorded)) →
  ∃ fs', update_model_directory fs directory_name training_time samples history now
           = Return fs' ∧
    fs' !! filename =
      Some (dump (PList (recorded ++ [run_record training_time samples history now]))).
Proof.
  intros filename Hfile. unfold update_model_directory. fold filename.
  destruct Hfile as [[Hnone ->] | Hsome].
  - rewrite decide_False by (rewrite Hnone; by intros [? ?]).
    cbn. eexists. split; [reflexivity|].
    unfold save. by rewrite lookup_insert_eq.
  - rewrite decide_True by (rewrite Hsome; by eexists).
    unfold load at 1. rewrite Hsome, load_dump.
    assert (init (Some (PList recorded)) = {| runs := PList recorded |}) as ->
      by by destruct recorded.
    cbn. eexists. split; [reflexivity|].
    unfold save. by rewrite lookup_insert_eq.
Qed.

Lemma record_runs_recorded (fs : files) (directory_name : string)
    (sessions : list (string * Z * pyval * string)) (recorded : list pyval) :
  let filename := path_join directory_name "training-history.json" in
  let records := (λ '(training_time, samples, history, now),
                    run_record training_time samples history now) <$> sessions in
  fs !! filename = None ∧ recorded = [] ∨ fs !! filename = Some (dump (PList recorded)) →
  sessions ≠ [] →
  ∃ fs', record_runs fs directory_name sessions = Return fs' ∧
    fs' !! filename = Some (dump (PList (recorded ++ records))).
Proof.
  intros filename records. subst filename records.
  revert fs recorded. induction sessions as [|[[[tt samples] history] now] sessions IH];
    intros fs recorded Hfile Hne; [done|].
  destruct (update_recorded fs directory_name tt samples history now recorded Hfile)
    as (fs1 & Hupdate & Hfs1).
  cbn [record_runs]. rewrite Hupdate. cbn.
  destruct sessions as [|s sessions'].
  - exists fs1. split; [done|]. exact Hfs1.
  - destruct (IH fs1 (recorded ++ [run_record tt samples history now])) as (fs' & Hrec & Hfs');
      [by right | done |].
    exists fs'. split; [done|]. rewrite Hfs'. by rewrite <- app_assoc.
Qed.

(** X13. Training runs add up in the model directory: starting without a
    history file, after any number of runs (at least one), each recorded by
    [update_model_directory], the history read back holds one record per
    run, in the order of the runs. *)
Theorem training_runs_add_up (fs : files) (directory_name : string)
    (sessions : list (string * Z * pyval * string)) :
  let filename := path_join directory_name "training-history.json" in
  fs !! filename = None →
  sessions ≠ [] →
  ∃ fs', record_runs fs directory_name sessions = Return fs' ∧
    ∃ h, load fs' filename = Return h ∧
      runs h = PList ((λ '(training_time, samples, history, now),
                         run_record training_time samples history now) <$> sessions) ∧
      run_count h = length sessions.
Proof.
  intros filename Hnone Hne.
  destruct (record_runs_recorded fs directory_name sessions []) as (fs' & Hrec & Hfs');
    [by left | done |].
  exists fs'. split; [done|]. rewrite app_nil_l in Hfs'. fold filename in Hfs'.
  eexists. split.
  - unfold load. rewrite Hfs', load_dump. reflexivity.
  - destruct sessions as [|s sessions]; [done|]. cbn. split; [done|].
    by rewrite length_fmap.
Qed.

(** *** What is written *)

#[local] Instance key_le_total : Total key_le.
Proof. intros a b. apply String.leb_total. Qed.

Lemma dump_sorted_bounded (n : nat) (v : pyval) : pysize v < n → sorted_keys (dump v).
Proof.
  revert v. induction n as [|n IH]; intros v Hn; [lia|].
  destruct v as [| | | | |l|m]; cbn [dump]; try constructor.
  - apply Forall_fmap, Forall_forall. intros v Hv. apply IH.
    pose proof (pysize_elem_of l v Hv). cbn in *. lia.
  - apply (Sorted_merge_sort key_le).
  - rewrite merge_sort_Permutation. apply NoDup_fst_map_to_list.
  - rewrite merge_sort_Permutation. apply Forall_forall.
    intros [k j] Hkj. apply elem_of_map_to_list in Hkj.
    rewrite lookup_fmap in Hkj.
    destruct (m !! k) as [v|] eqn:Hk; [|discriminate]. injection Hkj as <-.
    cbn. apply IH. pose proof (pysize_lookup m k v Hk). cbn in *. lia.
Qed.

(** X14. In every file [save] writes, the keys of every object, at any
    depth, are in increasing order without repetition, as [sort_keys=True]
    asks. *)
Theorem save_sorts_keys (h : t) (fs : files) (filename : string) :
  ∃ doc, save h fs filename !! filename = Some doc ∧ sorted_keys doc.
Proof.
  exists (dump (runs h)). split.
  - unfold save. apply lookup_insert_eq.
  - apply (dump_sorted_bounded (S (pysize (runs h)))). lia.
Qed.

End HistoryFileFacts.

(** ** Training sessions *)

Section TrainingFacts.

Import Training.

Context {rng : Type}.
Variable shuffle : rng → list (list cell) → list (list cell) * rng.
Variable random_state : rng.
Variable training_operation : DataFrame → option DataFrame → pyval.

Abbreviation train_or_continue := (train_or_continue shuffle random_state training_operation).

(** Preparing the training and validation data never fails. *)
Lemma partition_Done (fixed : DataFrame) (args : Training.t) :
  ∃ training validation,
    partition shuffle random_state fixed args = Done (training, validation) ∧
    (validation_fraction args = None → training = fixed ∧ validation = validation_set args).
Proof.
  unfold partition. destruct (validation_fraction args) as [fraction|].
  - unfold cross_validation_partitions. change (Z.to_nat 1) with 1.
    cbn [partitions_from].
    destruct (shuffle random_state (rows fixed)) as [shuffled g'].
    do 2 eexists. split; [reflexivity | done].
  - do 2 eexists. split; [reflexivity | done].
Qed.

Lemma train_records (fs : files) (args : Training.t) (training_time now : string)
    (fixed : DataFrame) (directory_name : string) :
  let filename := path_join directory_name "training-history.json" in
  let history := training_operation fixed (validation_set args) in
  let s := train_or_continue fs args training_time now in
  model_directory_name args = Some directory_name →
  validation_fraction args = None →
  fix_columns (head (training args) (n args)) (names args) = Return fixed →
  fs !! filename = None →
  TrainingHistory.load (files_after s) filename =
    Return {| TrainingHistory.runs :=
                PList [TrainingHistory.run_record training_time
                         (Z.of_nat (len (head (training args) (n args)))) history now] |} ∧
  (printed s, raised s) = report training_time history (validation_set args).
Proof.
  intros filename history s Hdir Hfraction Hfix Hnone. subst s.
  unfold Training.train_or_continue. rewrite Hfix.
  destruct (partition_Done fixed args) as (tr & va & -> & Hsame).
  destruct (Hsame Hfraction) as [-> ->]. rewrite Hdir.
  destruct (update_recorded fs directory_name training_time (Z.of_nat (len fixed))
              history now []) as (fs' & Hupdate & Hfs'); [by left|].
  fold history. rewrite Hupdate.
  destruct (report training_time history (validation_set args)) as [lines failed].
  cbn. split; [|done].
  unfold TrainingHistory.load. fold filename in Hfs'. rewrite Hfs', load_dump.
  by destruct (fix_columns_rows _ _ _ Hfix) as [-> _].
Qed.

(** X16. A training session records its run before it prints the scores:
    with a model directory without history file (and no validation
    fraction), once the data is prepared the history file holds one run,
    whose number of samples is the number of rows kept by [--n] and whose
    metrics are those of the training operation applied to the fixed
    training data and to the validation set as given, whether or not the
    prints that follow raise. *)
Theorem train_or_continue_records_run (fs : files) (args : Training.t)
    (training_time now : string) (fixed : DataFrame) (directory_name : string) :
  let filename := path_join directory_name "training-history.json" in
  let history := training_operation fixed (validation_set args) in
  let s := train_or_continue fs args training_time now in
  model_directory_name args = Some directory_name →
  validation_fraction args = None →
  fix_columns (head (training args) (n args)) (names args) = Return fixed →
  fs !! filename = None →
  TrainingHistory.load (files_after s) filename =
    Return {| TrainingHistory.runs :=
                PList [TrainingHistory.run_record training_time
                         (Z.of_nat (len (head (training args) (n args)))) history now] |} ∧
  (printed s, raised s) = report training_time history (validation_set args).
Proof. apply train_records. Qed.

End TrainingFacts.

(** ** The rows an operation works on *)

Section SelectedRowsFacts.

Context {vector : Type}.
Variable zero : vector.
Variable parse : string → list vector.
Context {rng : Type}.
Variable shuffle : rng → list (list cell) → list (list cell) * rng.
Variable random_state : rng.
Variable training_operation : DataFrame → option DataFrame → pyval.

Implicit Types (data : DataFrame) (args : Namespace).

Lemma rows_head data (n : option Z) :
  rows (head data n) =
    match n with
    | None => rows data
    | Some k => if (0 <=? k)%Z then take (Z.to_nat k) (rows data)
                else take (len data - Z.to_nat (- k)) (rows data)
    end.
Proof. by destruct n. Qed.

Lemma fix_columns_head_cells data args fixed (n : option Z) :
  fix_columns (head data n) args = Return fixed →
  rows fixed =
    (λ row, (λ i, default None (row !! i))
              <$> (wanted data args ≫= (λ key, positions key (renamed_columns data args))))
      <$> rows (head data n).
Proof.
  intros Hfix%fix_columns_Return_inv%getitem_Return_inv.
  destruct Hfix as (_ & _ & Hrows). by destruct n.
Qed.

(** X7. The frame [fix_columns(data.head(n), args)] that [predict],
    [create_cross_validation_partitions] and [train_or_continue] start from
    holds the selected cells of all the rows of the data without [--n], of
    the first [n] rows for [n ≥ 0] and of all but the last [-n] rows for a
    negative [n], in order. From there on each operation works on these rows
    only: [predict] returns one label per kept row; the cross-validation
    subcommand writes two files per split, which share out the kept rows when
    the shuffle only rearranges; a training session records the number of
    kept rows as its samples. *)
Theorem fix_columns_head_rows data args fixed (n : option Z) :
  fix_columns (head data n) args = Return fixed →
  let kept :=
    match n with
    | None => rows data
    | Some k => if (0 <=? k)%Z then take (Z.to_nat k) (rows data)
                else take (len data - Z.to_nat (- k)) (rows data)
    end in
  let indexer := wanted data args ≫= (λ key, positions key (renamed_columns data args)) in
  rows fixed = (λ row, (λ i, default None (row !! i)) <$> indexer) <$> kept ∧
  len fixed =
    match n with
    | None => len data
    | Some k => if (0 <=? k)%Z then Z.to_nat k `min` len data
                else len data - Z.to_nat (- k)
    end ∧
  (∀ model batch_size block_size, 0 < batch_size → 0 < block_size →
     ∃ labels,
       predict zero parse model data n args batch_size block_size = Return labels ∧
       length labels = length kept) ∧
  (∀ fraction k prefix output_directory,
     ∃ written,
       create_cross_validation_partitions shuffle random_state data n args fraction k
         prefix output_directory = Return written ∧
       length written = 2 * Z.to_nat k ∧
       ((∀ g l, (shuffle g l).1 ≡ₚ l) →
        ∀ i, i < Z.to_nat k →
          ∃ train_name train validate_name validate,
            written !! (2 * i) = Some (train_name, train) ∧
            written !! (2 * i + 1) = Some (validate_name, validate) ∧
            rows train ++ rows validate ≡ₚ rows fixed)) ∧
  (∀ (session : Training.t) fs training_time now directory_name,
     Training.training session = data → Training.n session = n →
     Training.names session = args →
     Training.model_directory_name session = Some directory_name →
     Training.validation_fraction session = None →
     fs !! path_join directory_name "training-history.json" = None →
     TrainingHistory.load
       (Training.files_after
          (Training.train_or_continue shuffle random_state training_operation fs session
             training_time now))
       (path_join directory_name "training-history.json") =
     Return {| TrainingHistory.runs :=
                 PList [TrainingHistory.run_record training_time
                          (Z.of_nat (length kept))
                          (training_operation fixed (Training.validation_set session))
                          now] |}).
Proof.
  intros Hfix kept indexer.
  assert (rows fixed = (λ row, (λ i, default None (row !! i)) <$> indexer) <$> kept)
    as Hrows.
  { subst kept indexer. rewrite <- rows_head. by apply fix_columns_head_cells. }
  assert (len fixed = length kept) as Hlen by (unfold len; by rewrite Hrows, length_fmap).
  split_and!.
  - exact Hrows.
  - rewrite <- len_head. by apply fix_columns_rows in Hfix as [? _].
  - intros model batch_size block_size Hbatch Hblock.
    unfold predict. rewrite Hfix. eexists. split; [reflexivity|].
    by rewrite predict_length.
  - intros fraction k prefix output_directory.
    destruct (create_cross_validation_partitions shuffle random_state data n args fraction k
                prefix output_directory) as [written|e] eqn:Hwritten.
    2: { unfold create_cross_validation_partitions in Hwritten.
         rewrite Hfix in Hwritten. discriminate. }
    exists written. split; [done|].
    destruct (written_files shuffle random_state data n args fraction k prefix
                output_directory written Hwritten) as (fixed' & Hfix' & Hlength & Hlook).
    assert (fixed' = fixed) as -> by congruence.
    rewrite length_cross_validation_partitions in Hlength. split; [done|].
    intros Hperm i Hi.
    destruct (lookup_lt_is_Some_2
                (cross_validation_partitions shuffle random_state fixed fraction k) i)
      as [[train validate] Hpart];
      [by rewrite length_cross_validation_partitions|].
    destruct (Hlook i train validate Hpart) as [Htrain Hvalidate].
    do 4 eexists. split_and!; [exact Htrain | exact Hvalidate|].
    pose proof (partitions_from_split shuffle random_state fixed
                  (int (fraction * inject_Z (Z.of_nat (len fixed)))) (Z.to_nat k) Hperm)
      as Hall.
    rewrite Forall_forall in Hall.
    by destruct (Hall _ (list_elem_of_lookup_2 _ _ _ Hpart)) as [? _].
  - intros session fs training_time now directory_name <- <- <- Hdir Hfraction Hnone.
    destruct (train_records shuffle random_state training_operation fs session training_time
                now fixed directory_name Hdir Hfraction Hfix Hnone) as [-> _].
    by rewrite <- Hlen, (proj1 (fix_columns_rows _ _ _ Hfix)).
Qed.

End SelectedRowsFacts.

(** ** The further properties at work *)

Lemma fix_columns_keeps_rows_witness :
  let data := {| columns := ["q1"; "id"; "q2"];
                 rows := [[Some "x"; Some "7"; Some "y"]; [Some "u"; Some "8"; Some "v"]] |} in
  let args := {| text_1_name := Some "q1"; text_2_name := Some "q2"; label_name := None |} in
  let fixed := {| columns := ["text1"; "text2"];
                  rows := [[Some "x"; Some "y"]; [Some "u"; Some "v"]] |} in
  fix_columns data args = Return fixed ∧
  len fixed = len data ∧
  Forall (λ row, length row = length (columns fixed)) (rows fixed).
Proof.
  intros data args fixed.
  assert (fix_columns data args = Return fixed) as Hfix by (vm_compute; reflexivity).
  split; [exact Hfix|]. exact (fix_columns_keeps_rows data args fixed Hfix).
Defined.

Lemma fix_columns_names_first_missing_witness :
  let data := {| columns := ["text1"; "text2"; "label"];
                 rows := [[Some "x"; Some "y"; Some "1"]] |} in
  let args := {| text_1_name := Some "bogus"; text_2_name := None; label_name := None |} in
  fix_columns data args = Raise (ValueError "Missing column bogus") ∧
  ∃ before name after,
    supplied args = before ++ Some name :: after ∧
    (name ∉ columns data) ∧
    (∀ name', Some name' ∈ before → name' ∈ columns data) ∧
    "Missing column bogus" = "Missing column " +:+ name.
Proof.
  intros data args.
  assert (fix_columns data args = Raise (ValueError "Missing column bogus")) as Hfix
    by (vm_compute; reflexivity).
  split; [exact Hfix|].
  exact (fix_columns_names_first_missing data args "Missing column bogus" Hfix).
Defined.

Lemma fix_columns_named_columns_witness :
  let data := {| columns := ["q1"; "id"; "q2"];
                 rows := [[Some "x"; Some "7"; Some "y"]] |} in
  let args := {| text_1_name := Some "q1"; text_2_name := Some "q2"; label_name := None |} in
  let fixed := {| columns := ["text1"; "text2"]; rows := [[Some "x"; Some "y"]] |} in
  NoDup (renamed_columns data args) ∧
  fix_columns data args = Return fixed ∧
  (∀ a, text_1_name args = Some a → text_2_name args ≠ Some a → label_name args ≠ Some a →
     ∀ i row, rows data !! i = Some row →
       ∃ row', rows fixed !! i = Some row' ∧ cell_of fixed "text1" row' = cell_of data a row) ∧
  (∀ b, text_2_name args = Some b → label_name args ≠ Some b →
     ∀ i row, rows data !! i = Some row →
       ∃ row', rows fixed !! i = Some row' ∧ cell_of fixed "text2" row' = cell_of data b row).
Proof.
  intros data args fixed.
  assert (NoDup (renamed_columns data args)) as Hnd
    by (apply (bool_decide_unpack _); vm_compute; exact I).
  assert (fix_columns data args = Return fixed) as Hfix by (vm_compute; reflexivity).
  split; [exact Hnd|]. split; [exact Hfix|].
  exact (fix_columns_named_columns data args fixed Hnd Hfix).
Defined.

Lemma fix_columns_idempotent_witness :
  let data := {| columns := ["q1"; "id"; "q2"; "same"];
                 rows := [[Some "x"; Some "7"; Some "y"; Some "1"]] |} in
  let args := {| text_1_name := Some "q1"; text_2_name := Some "q2";
                 label_name := Some "same" |} in
  let fixed := {| columns := ["text1"; "text2"; "label"];
                  rows := [[Some "x"; Some "y"; Some "1"]] |} in
  NoDup (renamed_columns data args) ∧
  fix_columns data args = Return fixed ∧
  fix_columns fixed
    {| text_1_name := None; text_2_name := None; label_name := None |} = Return fixed.
Proof.
  intros data args fixed.
  assert (NoDup (renamed_columns data args)) as Hnd
    by (apply (bool_decide_unpack _); vm_compute; exact I).
  assert (fix_columns data args = Return fixed) as Hfix by (vm_compute; reflexivity).
  split; [exact Hnd|]. split; [exact Hfix|].
  exact (fix_columns_idempotent data args fixed Hnd Hfix).
Defined.

Lemma fix_columns_same_name_for_both_texts_witness :
  let data := {| columns := ["q"; "label"]; rows := [[Some "x"; Some "1"]] |} in
  let args := {| text_1_name := Some "q"; text_2_name := Some "q"; label_name := None |} in
  text_1_name args = Some "q" ∧ text_2_name args = Some "q" ∧
  ("text1" ∉ columns data) ∧
  ¬ returns (fix_columns data args).
Proof.
  intros data args.
  assert ("text1" ∉ columns data) as Hno by (intros Hin; elem_of_entries Hin).
  split; [reflexivity|]. split; [reflexivity|]. split; [exact Hno|].
  exact (fix_columns_same_name_for_both_texts data args "q" eq_refl eq_refl Hno).
Defined.

Lemma fix_columns_head_rows_witness :
  let letters := λ s : string, seq 1 (String.length s) in
  let shuffle := λ (g : nat) (l : list (list cell)), (rotate (S g) l, S g) in
  let operation := λ (_ : DataFrame) (_ : option DataFrame), PDict ∅ in
  let data := {| columns := ["id"; "text1"; "text2"];
                 rows := [[Some "1"; Some "a"; Some "b"]; [Some "2"; Some "c"; Some "d"];
                          [Some "3"; Some "e"; Some "f"]] |} in
  let fixed := {| columns := ["text1"; "text2"];
                  rows := [[Some "a"; Some "b"]; [Some "c"; Some "d"]] |} in
  let kept := take (Z.to_nat 2) (rows data) in
  fix_columns (head data (Some 2%Z)) no_names = Return fixed ∧
  rows fixed = (λ row, (λ i, default None (row !! i)) <$> [1; 2]) <$> kept ∧
  len fixed = 2 ∧
  (∀ model batch_size block_size, 0 < batch_size → 0 < block_size →
     ∃ labels,
       predict 0 letters model data (Some 2%Z) no_names batch_size block_size =
         Return labels ∧
       length labels = length kept) ∧
  (∀ fraction k prefix output_directory,
     ∃ written,
       create_cross_validation_partitions shuffle 7 data (Some 2%Z) no_names fraction k
         prefix output_directory = Return written ∧
       length written = 2 * Z.to_nat k ∧
       ((∀ g l, (shuffle g l).1 ≡ₚ l) →
        ∀ i, i < Z.to_nat k →
          ∃ train_name train validate_name validate,
            written !! (2 * i) = Some (train_name, train) ∧
            written !! (2 * i + 1) = Some (validate_name, validate) ∧
            rows train ++ rows validate ≡ₚ rows fixed)) ∧
  (∀ (session : Training.t) fs training_time now directory_name,
     Training.training session = data → Training.n session = Some 2%Z →
     Training.names session = no_names →
     Training.model_directory_name session = Some directory_name →
     Training.validation_fraction session = None →
     fs !! path_join directory_name "training-history.json" = None →
     TrainingHistory.load
       (Training.files_after
          (Training.train_or_continue shuffle 7 operation fs session training_time now))
       (path_join directory_name "training-history.json") =
     Return {| TrainingHistory.runs :=
                 PList [TrainingHistory.run_record training_time
                          (Z.of_nat (length kept))
                          (operation fixed (Training.validation_set session))
                          now] |}).
Proof.
  intros letters shuffle operation data fixed kept.
  assert (fix_columns (head data (Some 2%Z)) no_names = Return fixed) as Hfix
    by (vm_compute; reflexivity).
  split; [exact Hfix|].
  exact (fix_columns_head_rows 0 letters shuffle 7 operation data no_names fixed
           (Some 2%Z) Hfix).
Defined.

Lemma cross_validation_files_witness :
  let shuffle := λ (g : nat) (l : list (list cell)), (rotate (S g) l, S g) in
  let data := {| columns := ["text1"; "text2"];
                 rows := [[Some "a"; Some "b"]; [Some "c"; Some "d"]; [Some "e"; Some "f"]] |} in
  ∃ written,
    create_cross_validation_partitions shuffle 7 data None no_names (2 # 3) 2
      "partition" "out" = Return written ∧
    ∃ fixed, fix_columns (head data None) no_names = Return fixed ∧
      let partitions := cross_validation_partitions shuffle 7 fixed (2 # 3) 2 in
      length written = 2 * length partitions ∧
      ∀ i train validate, partitions !! i = Some (train, validate) →
        written !! (2 * i) =
          Some (path_join "out" ("partition" +:+ "." +:+ pretty (i + 1) +:+ ".train.csv"),
                train) ∧
        written !! (2 * i + 1) =
          Some (path_join "out" ("partition" +:+ "." +:+ pretty (i + 1) +:+ ".validate.csv"),
                validate).
Proof.
  intros shuffle data.
  destruct (create_cross_validation_partitions shuffle 7 data None no_names (2 # 3) 2
              "partition" "out") as [written|e] eqn:Hwritten;
    [|vm_compute in Hwritten; discriminate].
  exists written. split; [reflexivity|].
  exact (cross_validation_files shuffle 7 data None no_names (2 # 3) 2
           "partition" "out" written Hwritten).
Defined.

Lemma partition_names_differ_witness :
  "train" ∈ ["train"; "validate"] ∧ "validate" ∈ ["train"; "validate"] ∧
  (0, "train") ≠ (1, "validate") ∧
  path_join "out" ("data" +:+ "." +:+ pretty (0 + 1) +:+ "." +:+ "train" +:+ ".csv") ≠
  path_join "out" ("data" +:+ "." +:+ pretty (1 + 1) +:+ "." +:+ "validate" +:+ ".csv").
Proof.
  assert ("train" ∈ ["train"; "validate"]) as Ha by (by left).
  assert ("validate" ∈ ["train"; "validate"]) as Hb by (right; by left).
  assert ((0, "train") ≠ (1, "validate")) as Hne by discriminate.
  split; [exact Ha|]. split; [exact Hb|]. split; [exact Hne|].
  exact (partition_names_differ "out" "data" 0 1 "train" "validate" Ha Hb Hne).
Defined.

Lemma load_empty_document_witness :
  let fs : files := {[ "model/training-history.json" := JObject [] ]} in
  fs !! "model/training-history.json" = Some (JObject []) ∧
  TrainingHistory.load fs "model/training-history.json" =
    Return {| TrainingHistory.runs :=
                if empty_document (JObject []) then PList [] else load_json (JObject []) |}.
Proof.
  intros fs.
  assert (fs !! "model/training-history.json" = Some (JObject [])) as Hdoc
    by (vm_compute; reflexivity).
  split; [exact Hdoc|].
  exact (load_empty_document fs "model/training-history.json" (JObject []) Hdoc).
Defined.

Lemma update_model_directory_rejects_non_list_witness :
  let doc := JObject [("runs", JArray [])] in
  let fs : files := {[ "model/training-history.json" := doc ]} in
  fs !! path_join "model" "training-history.json" = Some doc ∧
  empty_document doc = false ∧
  (∀ l, doc ≠ JArray l) ∧
  update_model_directory fs "model" "0:00:10" 80 (PDict ∅) "2017-11-04 10:00:00" =
    Raise (AttributeError "append").
Proof.
  intros doc fs.
  assert (fs !! path_join "model" "training-history.json" = Some doc) as Hdoc
    by (vm_compute; reflexivity).
  assert (∀ l, doc ≠ JArray l) as Hnot by discriminate.
  split; [exact Hdoc|]. split; [reflexivity|]. split; [exact Hnot|].
  exact (update_model_directory_rejects_non_list fs "model" "0:00:10" 80 (PDict ∅)
           "2017-11-04 10:00:00" doc Hdoc eq_refl Hnot).
Defined.

Lemma update_model_directory_other_files_witness :
  let fs : files := {[ "model/model.info.json" := JStr "LSTM" ]} in
  let fs' : files :=
    <["model/training-history.json" :=
        dump (PList [TrainingHistory.run_record "0:00:10" 80 (PDict ∅) "2017-11-04"])]> fs in
  update_model_directory fs "model" "0:00:10" 80 (PDict ∅) "2017-11-04" = Return fs' ∧
  is_Some (fs' !! path_join "model" "training-history.json") ∧
  ∀ filename, filename ≠ path_join "model" "training-history.json" →
    fs' !! filename = fs !! filename.
Proof.
  intros fs fs'.
  assert (update_model_directory fs "model" "0:00:10" 80 (PDict ∅) "2017-11-04" = Return fs')
    as Hupdate by reflexivity.
  split; [exact Hupdate|].
  exact (update_model_directory_other_files fs fs' "model" "0:00:10" 80 (PDict ∅)
           "2017-11-04" Hupdate).
Defined.

Lemma training_runs_add_up_witness :
  let sessions := [("0:00:10", 80%Z, PDict ∅, "2017-11-04");
                   ("0:00:12", 80%Z, PDict ∅, "2017-11-05")] in
  let filename := path_join "model" "training-history.json" in
  (∅ : files) !! filename = None ∧
  sessions ≠ [] ∧
  ∃ fs', record_runs ∅ "model" sessions = Return fs' ∧
    ∃ h, TrainingHistory.load fs' filename = Return h ∧
      TrainingHistory.runs h =
        PList ((λ '(training_time, samples, history, now),
                  TrainingHistory.run_record training_time samples history now)
                 <$> sessions) ∧
      TrainingHistory.run_count h = length sessions.
Proof.
  intros sessions filename.
  assert ((∅ : files) !! filename = None) as Hnone by reflexivity.
  assert (sessions ≠ []) as Hne by discriminate.
  split; [exact Hnone|]. split; [exact Hne|].
  exact (training_runs_add_up ∅ "model" sessions Hnone Hne).
Defined.

Lemma train_or_continue_records_run_witness :
  let shuffle := λ (g : nat) (l : list (list cell)), (rotate (S g) l, S g) in
  let data := {| columns := ["text1"; "text2"; "label"];
                 rows := [[Some "a"; Some "b"; Some "1"]; [Some "c"; Some "d"; Some "0"]] |} in
  let fixed := {| columns := ["text1"; "text2"; "label"];
                  rows := [[Some "a"; Some "b"; Some "1"]] |} in
  let args := {| Training.training := data; Training.n := Some 1%Z;
                 Training.names := no_names;
                 Training.validation_set := None;
                 Training.validation_fraction := None;
                 Training.gpu_fraction := None;
                 Training.model_directory_name := Some "model" |} in
  let operation := λ (_ : DataFrame) (_ : option DataFrame), PDict ∅ in
  let filename := path_join "model" "training-history.json" in
  let history := operation fixed (Training.validation_set args) in
  let s := Training.train_or_continue shuffle 7 operation ∅ args "0:00:10" "2017-11-04" in
  Training.model_directory_name args = Some "model" ∧
  Training.validation_fraction args = None ∧
  fix_columns (head (Training.training args) (Training.n args)) (Training.names args)
    = Return fixed ∧
  (∅ : files) !! filename = None ∧
  TrainingHistory.load (Training.files_after s) filename =
    Return {| TrainingHistory.runs :=
                PList [TrainingHistory.run_record "0:00:10"
                         (Z.of_nat (len (head (Training.training args) (Training.n args))))
                         history "2017-11-04"] |} ∧
  (Training.printed s, Training.raised s) =
    Training.report "0:00:10" history (Training.validation_set args).
Proof.
  intros shuffle data fixed args operation filename history s.
  assert (fix_columns (head (Training.training args) (Training.n args)) (Training.names args)
            = Return fixed) as Hfix by (vm_compute; reflexivity).
  assert ((∅ : files) !! filename = None) as Hnone by reflexivity.
  split; [reflexivity|]. split; [reflexivity|]. split; [exact Hfix|]. split; [exact Hnone|].
  exact (train_or_continue_records_run shuffle 7 operation ∅ args "0:00:10" "2017-11-04"
           fixed "model" eq_refl eq_refl Hfix Hnone).
Defined.
